(** * Segment refinement and escalation controller of raveInterface.py

    A shallow embedding of [Motion_planning] (src/raveInterface.py): the
    request builder [__set_request], the safety validator [__check_safe],
    the coarse planning adapter [__init_traj], [set_manip], [simulate] and
    the escalation controller [optimize].

    Conventions of the embedding.
    - Python floats are idealised as rationals ([Q]); joint vectors are
      [list Q].  Values that the code only copies are compared with
      Leibniz equality, computed values with the arithmetic of [Q].
    - OpenRAVE, trajopt and the IK module are external collaborators.  They
      are collected in a record [World] of operations on an abstract
      environment state [Env]; every theorem holds for each [World].
      External calls are assumed to return (they never raise).
    - The Python object [self] and the list objects it aliases are an
      explicit state: a record of attributes plus a store of list objects.
      Exceptions are outcomes that keep the state reached when they were
      raised, as Python does.
    - The calls to the optimizer are recorded in a log ([calls]), which the
      code itself never reads. *)

From Stdlib Require Import QArith Qround Qminmax Qabs ZArith Lia Lqa.
From stdpp Require Import gmap strings list.

Local Open Scope string_scope.
Local Open Scope list_scope.

(** ** Data *)

Definition waypoint := list Q.
(** A sequence of joint vectors: a coarse path or a candidate trajectory. *)
Definition waypoints := list waypoint.

(** A reference to a Python list object of floats. *)
Definition loc := nat.

(** Python values that [json.dumps] serialises. *)
#[local] Unset Elimination Schemes.
Inductive json : Type :=
| JInt (z : Z)
| JFloat (q : Q)
| JBool (b : bool)
| JStr (s : string)
| JList (l : list json)
| JDict (kvs : list (string * json)).
#[local] Set Elimination Schemes.

Definition dict := list (string * json).

(** [d.get(k)] *)
Fixpoint dict_get (k : string) (d : dict) : option json :=
  match d with
  | [] => None
  | (k', v) :: d' => if String.eqb k k' then Some v else dict_get k d'
  end.

(** [try: del d[k] / except KeyError: pass] *)
Fixpoint dict_del (k : string) (d : dict) : dict :=
  match d with
  | [] => []
  | (k', v) :: d' => if String.eqb k k' then dict_del k d' else (k', v) :: dict_del k d'
  end.

(** [d.update({k : v})]: the key is overwritten when present, added when not. *)
Fixpoint dict_update (k : string) (v : json) (d : dict) : dict :=
  match d with
  | [] => [(k, v)]
  | (k', v') :: d' =>
      if String.eqb k k' then (k, v) :: d' else (k', v') :: dict_update k v d'
  end.

Definition dict_keys (d : dict) : list string := map fst d.

(** [jd["basic_info"]["n_steps"]] of a request document. *)
Definition request_n_steps (jd : json) : option Z :=
  match jd with
  | JDict d =>
      match dict_get "basic_info" d with
      | Some (JDict b) =>
          match dict_get "n_steps" b with
          | Some (JInt n) => Some n
          | _ => None
          end
      | _ => None
      end
  | _ => None
  end.

Definition json_of_waypoint (w : waypoint) : json := JList (map JFloat w).

(** Python's [max(a, b)] on two numbers: the first argument is kept unless
    the second is strictly greater. *)
Definition py_max (a b : Q) : Q := if Qle_bool b a then a else b.

(** [max(int(ceil(dis / step_dis_ratio)), 3)] with [step_dis_ratio = 0.5]
    (lines 156 and 160). *)
Definition step_dis_ratio : Q := 1 # 2.

Definition n_steps_of (dis : Q) : Z :=
  Z.max (Qceiling (dis / step_dis_ratio)) 3.

(** ** External collaborators *)

Record World : Type := {
  (** state of the OpenRAVE environment: robot pose, active DOFs, collision
      checker and its options *)
  Env : Type;
  (** [robot.GetManipulator(name).GetArmIndices()] *)
  GetArmIndices : string -> list nat;
  (** [robot.SetDOFValues(values, indices)] *)
  SetDOFValues : list Q -> list nat -> Env -> Env;
  (** [robot.SetActiveDOFs(indices)] *)
  SetActiveDOFs : list nat -> Env -> Env;
  (** [robot.SetActiveDOFValues(values)] *)
  SetActiveDOFValues : list Q -> Env -> Env;
  (** [robot.SetActiveManipulator(robot.GetManipulator(name))] *)
  SetActiveManipulator : string -> Env -> Env;
  (** [robot.GetDOFLimits()[0]], the lower limits *)
  GetDOFLimits_lower : Env -> list Q;
  (** [op.CollisionOptions.Contacts] *)
  CO_Contacts : Z;
  (** [env.GetCollisionChecker().SetCollisionOptions(o)] *)
  SetCollisionOptions : Z -> Env -> Env;
  (** [env.CheckCollision(kin.GetLinks()[3], kin.GetLinks()[6])] for the
      body [kin = env.GetKinBody('dvrk')] *)
  CheckCollision : Env -> bool;
  (** the OMPL planner named ["OMPL_" + algorithm], run to a goal
      configuration; [None] when its status is not [HasSolution] *)
  PlanPath : string -> Env -> waypoint -> option waypoints;
  (** the ['OMPL_Simplifier'] planner; [None] when it has no solution *)
  SimplifyPath : Env -> waypoints -> option waypoints;
  (** [IK.dVRK_IK_simple().get_endEffector_fromDOF] *)
  get_endEffector_fromDOF : waypoint -> list Q;
  (** [np.linalg.norm(np.array(a) - np.array(b))] *)
  linalg_norm_diff : list Q -> list Q -> Q;
  (** [trajoptpy.OptimizeProblem(trajoptpy.ConstructProblem(jd, env)).GetTraj().tolist()] *)
  OptimizeProblem : json -> Env -> waypoints
}.

(** Exceptions the modelled code can raise. *)
Inductive exn : Type :=
| AssertionError
| AttributeError
| IndexError
| NameError
| NoSafePath.   (* Exception('No path is safe') *)

Section Controller.

Context {W : World}.

(** One call of the optimizer: the loop indices at the call, the document
    handed over and the environment it was handed with. *)
Record event : Type := {
  ev_segment : nat;
  ev_strategy : nat;
  ev_request : json;
  ev_env : Env W
}.

(** The attributes of the [Motion_planning] object, the list objects that
    [left_arm_DOF] and [right_arm_DOF] refer to, and the log of optimizer
    calls.  [plan_arm], [target], [request] and [traj] are assigned by
    [optimize] before it reads them, so they are plain fields;
    [left_arm_DOF] and [right_arm_DOF] exist only after [set_manip]. *)
Record Motion_planning : Type := {
  env : Env W;
  left_arm_DOF : option loc;
  right_arm_DOF : option loc;
  plan_arm : string;
  target : waypoint;
  request : dict;
  traj : waypoints;
  heap : gmap loc (list Q);
  calls : list event
}.

Definition with_env (e : Env W) (s : Motion_planning) : Motion_planning :=
  {| env := e; left_arm_DOF := left_arm_DOF s; right_arm_DOF := right_arm_DOF s;
     plan_arm := plan_arm s; target := target s; request := request s;
     traj := traj s; heap := heap s; calls := calls s |}.

Definition with_left_arm_DOF (l : loc) (s : Motion_planning) : Motion_planning :=
  {| env := env s; left_arm_DOF := Some l; right_arm_DOF := right_arm_DOF s;
     plan_arm := plan_arm s; target := target s; request := request s;
     traj := traj s; heap := heap s; calls := calls s |}.

Definition with_right_arm_DOF (l : loc) (s : Motion_planning) : Motion_planning :=
  {| env := env s; left_arm_DOF := left_arm_DOF s; right_arm_DOF := Some l;
     plan_arm := plan_arm s; target := target s; request := request s;
     traj := traj s; heap := heap s; calls := calls s |}.

Definition with_request (d : dict) (s : Motion_planning) : Motion_planning :=
  {| env := env s; left_arm_DOF := left_arm_DOF s; right_arm_DOF := right_arm_DOF s;
     plan_arm := plan_arm s; target := target s; request := d;
     traj := traj s; heap := heap s; calls := calls s |}.

Definition with_traj (t : waypoints) (s : Motion_planning) : Motion_planning :=
  {| env := env s; left_arm_DOF := left_arm_DOF s; right_arm_DOF := right_arm_DOF s;
     plan_arm := plan_arm s; target := target s; request := request s;
     traj := t; heap := heap s; calls := calls s |}.

Definition with_heap (h : gmap loc (list Q)) (s : Motion_planning) : Motion_planning :=
  {| env := env s; left_arm_DOF := left_arm_DOF s; right_arm_DOF := right_arm_DOF s;
     plan_arm := plan_arm s; target := target s; request := request s;
     traj := traj s; heap := h; calls := calls s |}.

Definition with_calls (l : list event) (s : Motion_planning) : Motion_planning :=
  {| env := env s; left_arm_DOF := left_arm_DOF s; right_arm_DOF := right_arm_DOF s;
     plan_arm := plan_arm s; target := target s; request := request s;
     traj := traj s; heap := heap s; calls := l |}.

(** ** State and exception monad *)

Inductive outcome (A : Type) : Type :=
| Ret (a : A) (s : Motion_planning)
| Raise (e : exn) (s : Motion_planning).
Arguments Ret {A} a s.
Arguments Raise {A} e s.

Definition final {A} (o : outcome A) : Motion_planning :=
  match o with Ret _ s => s | Raise _ s => s end.

Definition M (A : Type) : Type := Motion_planning -> outcome A.

Definition ret {A} (a : A) : M A := fun s => Ret a s.
Definition raise {A} (e : exn) : M A := fun s => Raise e s.
Definition bind {A B} (m : M A) (k : A -> M B) : M B :=
  fun s => match m s with
           | Ret a s' => k a s'
           | Raise e s' => Raise e s'
           end.
Definition get : M Motion_planning := fun s => Ret s s.
Definition modify (f : Motion_planning -> Motion_planning) : M unit :=
  fun s => Ret tt (f s).
Definition from_option {A} (e : exn) (o : option A) : M A :=
  match o with Some a => ret a | None => raise e end.

Notation "x <- m ;; k" := (bind m (fun x => k))
  (at level 100, m at next level, right associativity).
Notation "m ;;; k" := (bind m (fun _ => k))
  (at level 100, right associativity).

(** ** The request builder, lines 48-118 *)

Definition cart_vel (name link : string) (n_steps : Z) : json :=
  JDict [("type", JStr "cart_vel");
         ("name", JStr name);
         ("params", JDict [("max_displacement", JInt 1);
                           ("first_step", JInt 0);
                           ("last_step", JInt (n_steps - 1));
                           ("link", JStr link)])].

Definition collision_cost (continuous : bool) : json :=
  JDict [("type", JStr "collision");
         ("params", JDict [("coeffs", JList [JInt 10000]);
                           ("dist_pen", JList [JFloat (1 # 10)]);
                           ("continuous", JBool continuous)])].

Definition request_document (manip : string) (joint_target : waypoint) (n_steps : Z) : dict :=
  [("basic_info", JDict [("n_steps", JInt n_steps);
                         ("manip", JStr manip);
                         ("start_fixed", JBool true)]);
   ("costs", JList [JDict [("type", JStr "joint_vel");
                           ("params", JDict [("coeffs", JList [JInt 100; JInt 100; JInt 1])])];
                    collision_cost true;
                    collision_cost false]);
   ("constraints", JList [JDict [("type", JStr "joint");
                                 ("params", JDict [("vals", json_of_waypoint joint_target)])];
                          cart_vel "s0_vel" "s0" n_steps;
                          cart_vel "s1_vel" "s1" n_steps])].

(** [__set_request(manip, joint_target, n_steps)] *)
Definition set_request (manip : string) (joint_target : waypoint) (n_steps : Z) : M unit :=
  modify (fun s =>
    {| env := env s; left_arm_DOF := left_arm_DOF s; right_arm_DOF := right_arm_DOF s;
       plan_arm := manip; target := joint_target;
       request := request_document manip joint_target n_steps;
       traj := traj s; heap := heap s; calls := calls s |}).

(** ** Accessors, lines 121-136 *)

(** [get_manip(name)]: the name of the manipulator it returns, [None] for
    Python's [None]. *)
Definition get_manip (name : string) : option string :=
  if String.eqb name "left_arm" then Some "left_arm"
  else if String.eqb name "right_arm" then Some "right_arm"
  else None.

(** The list object behind a reference. *)
Definition deref (l : loc) (s : Motion_planning) : list Q :=
  default [] (heap s !! l).

(** [set_manip(name, DOF)]; [DOF] is a reference to the caller's list, and
    it is the reference that is stored. *)
Definition set_manip (name : string) (DOF : loc) : M unit :=
  if negb (String.eqb name "left_arm" || String.eqb name "right_arm")
  then raise AssertionError
  else
    (if String.eqb name "left_arm" then modify (with_left_arm_DOF DOF)
     else if String.eqb name "right_arm" then modify (with_right_arm_DOF DOF)
     else ret tt) ;;;
    arm <- from_option AttributeError (get_manip name) ;;
    modify (fun s => with_env (SetDOFValues W (deref DOF s) (GetArmIndices W arm) (env s)) s).

(** ** The safety validator, lines 201-212
    ([time.sleep] has no effect on the state.) *)

(** The [for t in trajectory] loop on the environment alone: the verdict
    and the environment it leaves. *)
Fixpoint check_samples (idx : list nat) (ts : waypoints) (e : Env W) : bool * Env W :=
  match ts with
  | [] => (true, e)
  | t :: ts' =>
      let e' := SetDOFValues W t idx e in
      if CheckCollision W e' then (false, e') else check_samples idx ts' e'
  end.

Definition check_safe_env (idx : list nat) (ts : waypoints) (e : Env W) : bool * Env W :=
  check_samples idx ts (SetCollisionOptions W (CO_Contacts W) e).

(** [__check_safe(trajectory)] *)
Definition check_safe (ts : waypoints) : M bool :=
  fun s =>
    let r := check_safe_env (GetArmIndices W (plan_arm s)) ts (env s) in
    Ret (fst r) (with_env (snd r) s).

(** [simulate()], lines 196-199 *)
Definition simulate : M unit :=
  modify (fun s =>
    with_env (fold_left (fun e t => SetDOFValues W t (GetArmIndices W (plan_arm s)) e)
                        (traj s) (env s)) s).

(** ** The coarse planner adapter, lines 214-249
    The planners run under a robot state saver and leave the environment as
    they found it. *)
Definition init_traj (manip : string) (joint_target : list waypoint) (algorithm : string)
  : M waypoints :=
  arm <- from_option AttributeError (get_manip manip) ;;
  modify (fun s => with_env (SetActiveDOFs W (GetArmIndices W arm) (env s)) s) ;;;
  s <- get ;;
  dof <- from_option AttributeError (right_arm_DOF s) ;;
  modify (fun s => with_env (SetActiveDOFValues W (deref dof s) (env s)) s) ;;;
  modify (fun s => with_env (SetActiveManipulator W arm (env s)) s) ;;;
  goal <- from_option IndexError (head joint_target) ;;
  s <- get ;;
  planned <- from_option AssertionError (PlanPath W (String.append "OMPL_" algorithm) (env s) goal) ;;
  from_option AssertionError (SimplifyPath W (env s) planned).

(** ** The escalation controller, lines 138-194 *)

(** [eval('self.' + name + '_DOF')]: the reference held by the attribute. *)
Definition eval_arm_DOF (name : string) : M loc :=
  s <- get ;;
  if String.eqb name "left_arm" then from_option AttributeError (left_arm_DOF s)
  else if String.eqb name "right_arm" then from_option AttributeError (right_arm_DOF s)
  else raise AttributeError.

Definition straight_line (endpoint : waypoint) : json :=
  JDict [("type", JStr "straight_line"); ("endpoint", json_of_waypoint endpoint)].

Definition stationary : json := JDict [("type", JStr "stationary")].

Definition set_init_info (v : json) : M unit :=
  modify (fun s => with_request (dict_update "init_info" v (request s)) s).

(** The branch [j == 1], lines 175-178.  [pull_back] is the stored list
    object itself; its last entry is overwritten in the store.  The request
    refers to that object and is serialised right after the branch, so the
    document carries the contents the object has here. *)
Definition init_retracted : M unit :=
  s <- get ;;
  limit <- from_option IndexError (last (GetDOFLimits_lower W (env s))) ;;
  pull_back <- eval_arm_DOF (plan_arm s) ;;
  v <- from_option IndexError (last (deref pull_back s)) ;;
  let vals := <[ pred (length (deref pull_back s)) := py_max limit (v - 5) ]> (deref pull_back s) in
  modify (fun s => with_heap (<[ pull_back := vals ]> (heap s)) s) ;;;
  set_init_info (straight_line vals).

(** The choice of [init_info], lines 165-181. *)
Definition choose_init_info (j : nat) : M unit :=
  modify (fun s => with_request (dict_del "init_info" (request s)) s) ;;;
  if Nat.eqb j 0 then (s <- get ;; set_init_info (straight_line (target s)))
  else if Nat.eqb j 1 then init_retracted
  else if Nat.eqb j 2 then set_init_info stationary
  else ret tt.

(** One pass of the body of [for j in range(3)] up to the verdict,
    lines 165-187: the candidate and whether it was judged safe. *)
Definition attempt (i j : nat) : M (waypoints * bool) :=
  choose_init_info j ;;;
  s <- get ;;
  let jd := JDict (request s) in
  let result := OptimizeProblem W jd (env s) in
  modify (with_calls (calls s ++ [ {| ev_segment := i; ev_strategy := j;
                                      ev_request := jd; ev_env := env s |} ])) ;;;
  safe <- check_safe result ;;
  ret (result, safe).

(** [for j in js], with [break] on a safe candidate and the exception of
    line 192; [result] is the variable of that name (unbound before the
    first pass). *)
Fixpoint attempts (i : nat) (js : list nat) (result : option waypoints)
  : M (option waypoints) :=
  match js with
  | [] => ret result
  | j :: js' =>
      r <- attempt i j ;;
      if snd r then ret (Some (fst r))
      else if Nat.eqb j 2 then raise NoSafePath
      else attempts i js' (Some (fst r))
  end.

(** The body of [for i in range(len(trajectory) - 1)], lines 156-193. *)
Definition refine_segment (manip : string) (trajectory : waypoints) (i : nat) : M unit :=
  w1 <- from_option IndexError (trajectory !! (i + 1)%nat) ;;
  w0 <- from_option IndexError (trajectory !! i) ;;
  let eff1 := get_endEffector_fromDOF W w1 in
  let eff2 := get_endEffector_fromDOF W w0 in
  let dis := linalg_norm_diff W eff1 eff2 in
  let n_steps := n_steps_of dis in
  set_request manip w1 n_steps ;;;
  modify (fun s => with_env (SetDOFValues W w0 (GetArmIndices W (plan_arm s)) (env s)) s) ;;;
  result <- attempts i [0; 1; 2]%nat None ;;
  r <- from_option NameError result ;;
  modify (fun s => with_traj (traj s ++ r) s).

Fixpoint segments (manip : string) (trajectory : waypoints) (ixs : list nat) : M unit :=
  match ixs with
  | [] => ret tt
  | i :: ixs' => refine_segment manip trajectory i ;;; segments manip trajectory ixs'
  end.

(** [optimize(manip, joint_target, algorithm)] *)
Definition optimize (manip : string) (joint_target : list waypoint) (algorithm : string)
  : M unit :=
  trajectory <- init_traj manip joint_target algorithm ;;
  modify (with_traj []) ;;;
  segments manip trajectory (seq 0 (length trajectory - 1)).

(** Lines 266-267: playback follows a completed [optimize]. *)
Definition plan_and_play (manip : string) (joint_target : list waypoint) (algorithm : string)
  : M unit :=
  optimize manip joint_target algorithm ;;; simulate.

End Controller.

Arguments Ret {W A} a s.
Arguments Raise {W A} e s.

(** ** Functions and predicates of the log *)

Section Log.

Context {W : World}.

(** The candidate the optimizer returned at a logged call. *)
Definition candidate (ev : @event W) : waypoints :=
  OptimizeProblem W (ev_request ev) (ev_env ev).

(** The verdict of [__check_safe] on that candidate; the validator runs
    right after the call, on the environment of the call, while [plan_arm]
    is [manip]. *)
Definition judged_safe (manip : string) (ev : @event W) : bool :=
  fst (check_safe_env (GetArmIndices W manip) (candidate ev) (ev_env ev)).

(** The environment after posing the samples [ts] one after the other. *)
Definition pose_after (idx : list nat) (ts : waypoints) (e : Env W) : Env W :=
  fold_left (fun e t => SetDOFValues W t idx e) ts e.

(** Contact at the [k]-th sample, the samples before it having been posed. *)
Definition contact_at (idx : list nat) (ts : waypoints) (e : Env W) (k : nat) : bool :=
  CheckCollision W (pose_after idx (take (S k) ts) e).

(** The reference [eval('self.' + name + '_DOF')] yields, when the
    attribute exists. *)
Definition stored_ref (name : string) (s : @Motion_planning W) : option loc :=
  if String.eqb name "left_arm" then left_arm_DOF s
  else if String.eqb name "right_arm" then right_arm_DOF s
  else None.

(** The strategies logged for segment [i], in the order of the calls. *)
Definition strategies_of (i : nat) (evs : list (@event W)) : list nat :=
  map ev_strategy (List.filter (fun ev => Nat.eqb (ev_segment ev) i) evs).

(** [np.linalg.norm(np.array(eff1) - np.array(eff2))] of lines 157-159,
    for the segment from [w0] to [w1]. *)
Definition displacement (w0 w1 : waypoint) : Q :=
  linalg_norm_diff W (get_endEffector_fromDOF W w1) (get_endEffector_fromDOF W w0).

(** The [init_info] that goes with strategy [j] for the target [w1]. *)
Definition init_info_for (j : nat) (w1 : waypoint) (v : json) : Prop :=
  match j with
  | 0 => v = straight_line w1
  | 1 => exists pull_back, v = straight_line pull_back
  | 2 => v = stationary
  | _ => False
  end%nat.

Definition built_request (manip : string) (w1 : waypoint) (n : Z) (j : nat) (jd : json) : Prop :=
  exists v, jd = JDict (request_document manip w1 n ++ [("init_info", v)]) /\
            init_info_for j w1 v.

(** What holds of the object between the attempts of one segment. *)
Definition seg_inv (manip : string) (w1 : waypoint) (n : Z) (s : @Motion_planning W) : Prop :=
  plan_arm s = manip /\ target s = w1 /\
  dict_del "init_info" (request s) = request_document manip w1 n.

(** The calls [g] logged for segment [i], whose first call sees the
    environment [e1]. *)
Record segment_log (manip : string) (i : nat) (w1 : waypoint) (n : Z) (e1 : Env W)
    (g : list (@event W)) : Prop := {
  sl_length : (1 <= length g <= 3)%nat;
  sl_segment : Forall (fun ev => ev_segment ev = i) g;
  sl_strategy : map ev_strategy g = seq 0 (length g);
  sl_request : Forall (fun ev => built_request manip w1 n (ev_strategy ev) (ev_request ev)) g;
  sl_first : forall ev, head g = Some ev -> ev_env ev = e1;
  sl_next : forall k ev ev', g !! k = Some ev -> g !! S k = Some ev' ->
    judged_safe manip ev = false /\
    ev_env ev' = snd (check_safe_env (GetArmIndices W manip) (candidate ev) (ev_env ev))
}.

Definition attempts_outcome (manip : string) (s : @Motion_planning W) (g : list (@event W))
    (r : @outcome W (option waypoints)) : Prop :=
  calls (final r) = calls s ++ g /\ traj (final r) = traj s /\
  match r with
  | Ret res _ =>
      exists ev, last g = Some ev /\ judged_safe manip ev = true /\
                 res = Some (candidate ev)
  | Raise e _ =>
      (forall ev, last g = Some ev -> judged_safe manip ev = false) /\
      (e = NoSafePath <-> length g = 3%nat)
  end.

Definition segment_outcome (manip : string) (s : @Motion_planning W) (g : list (@event W))
    (r : @outcome W unit) : Prop :=
  calls (final r) = calls s ++ g /\
  match r with
  | Ret _ s' =>
      exists ev, last g = Some ev /\ judged_safe manip ev = true /\
                 traj s' = traj s ++ candidate ev
  | Raise e s' =>
      traj s' = traj s /\
      (forall ev, last g = Some ev -> judged_safe manip ev = false) /\
      (e = NoSafePath <-> length g = 3%nat)
  end.

Definition raised {A} (r : @outcome W A) : option exn :=
  match r with Ret _ _ => None | Raise e _ => Some e end.

(** The shape of the log [evs] and of the samples [out] appended to [traj]
    by the segment loop over the indices [ixs], and the exception [res] it
    ends with, if any. *)
Fixpoint run_log (manip : string) (trajectory : waypoints) (ixs : list nat)
    (evs : list (@event W)) (out : waypoints) (res : option exn) : Prop :=
  match ixs with
  | [] => evs = [] /\ out = [] /\ res = None
  | i :: ixs' =>
      exists w0 w1 e g rest,
        trajectory !! i = Some w0 /\ trajectory !! (i + 1)%nat = Some w1 /\
        segment_log manip i w1 (n_steps_of (displacement w0 w1))
          (SetDOFValues W w0 (GetArmIndices W manip) e) g /\
        evs = g ++ rest /\
        ((exists ev out', last g = Some ev /\ judged_safe manip ev = true /\
                          out = candidate ev ++ out' /\
                          run_log manip trajectory ixs' rest out' res)
         \/ (rest = [] /\ out = [] /\
             (forall ev, last g = Some ev -> judged_safe manip ev = false) /\
             exists x, res = Some x /\ (x = NoSafePath <-> length g = 3%nat)))
  end.

End Log.

Arguments displacement : clear implicits.

(** ** A simulated environment
    A six-joint robot whose pose is its DOF vector, used to run the
    controller on concrete inputs. *)

Module Sim.

Record sim_env : Type := {
  dofs : list Q;
  active : list nat;
  options : Z
}.

(** Index-wise assignment of [vals] to the joints [idx]. *)
Definition set_dofs (vals : list Q) (idx : list nat) (d : list Q) : list Q :=
  fold_left (fun d iv => <[ fst iv := snd iv ]> d) (zip idx vals) d.

Definition read_dofs (idx : list nat) (d : list Q) : list Q :=
  map (fun i => default 0%Q (d !! i)) idx.

Definition arm_indices (name : string) : list nat :=
  if String.eqb name "left_arm" then [0; 1; 2]%nat else [3; 4; 5]%nat.

(** An L1 distance stands in for the Euclidean norm. *)
Definition l1 (a b : list Q) : Q :=
  fold_right (fun xy acc => (Qabs (fst xy - snd xy) + acc)%Q) 0%Q (zip a b).

(** The first joint is advanced by one, or taken back by three. *)
Definition advance (p : list Q) : list Q :=
  match p with
  | [] => []
  | x :: p' => (x + 1)%Q :: p'
  end.

Definition retreat (p : list Q) : list Q :=
  match p with
  | [] => []
  | x :: p' => (x - 3)%Q :: p'
  end.

(** Two optimizer stubs, as functions of the current pose of the active
    joints: the pose followed by that pose advanced; and the same, except
    that from a pose whose first joint is at 5 the arm backs off. *)
Definition two_step (p : list Q) : waypoints := [p; advance p].

Definition backing_off (p : list Q) : waypoints :=
  if Qeq_bool (hd 0%Q p) 5 then [retreat p] else [p; advance p].

(** The stub world: the planner returns [path]; the optimizer applies
    [opt] to the pose of the active joints; two links touch when [contact]
    holds of the DOF vector. *)
Definition world (path : waypoints) (lower : list Q) (contact : list Q -> bool)
    (opt : list Q -> waypoints) : World :=
  {| Env := sim_env;
     GetArmIndices := arm_indices;
     SetDOFValues := fun vals idx e =>
       {| dofs := set_dofs vals idx (dofs e); active := active e; options := options e |};
     SetActiveDOFs := fun idx e =>
       {| dofs := dofs e; active := idx; options := options e |};
     SetActiveDOFValues := fun vals e =>
       {| dofs := set_dofs vals (active e) (dofs e); active := active e; options := options e |};
     SetActiveManipulator := fun _ e => e;
     GetDOFLimits_lower := fun _ => lower;
     CO_Contacts := 4;
     SetCollisionOptions := fun o e =>
       {| dofs := dofs e; active := active e; options := o |};
     CheckCollision := fun e => contact (dofs e);
     PlanPath := fun _ _ _ => Some path;
     SimplifyPath := fun _ t => Some t;
     get_endEffector_fromDOF := fun w => w;
     linalg_norm_diff := l1;
     OptimizeProblem := fun _ e => opt (read_dofs (active e) (dofs e)) |}.

(** Contact as soon as joint 3 (the first joint of the right arm) reaches 5. *)
Definition contact_from_5 (d : list Q) : bool :=
  Qle_bool 5 (default 0%Q (d !! 3%nat)).

Definition never (d : list Q) : bool := false.

Definition lower_limits : list Q := [-2; -2; 0; -2; -2; 0]%Q.

(** The object before [set_manip]: both arm lists are allocated in the
    store, at references 0 (left) and 1 (right). *)
Definition fresh (W : World) (e : Env W) (left right : list Q) : @Motion_planning W :=
  {| env := e; left_arm_DOF := None; right_arm_DOF := None;
     plan_arm := ""; target := []; request := []; traj := [];
     heap := <[ 1%nat := right ]> (<[ 0%nat := left ]> ∅); calls := [] |}.

Definition rest : sim_env :=
  {| dofs := [0; 0; 0; 0; 0; 0]%Q; active := []; options := 0 |}.

(** Lines 259-260 of the script: the object after both [set_manip] calls. *)
Definition ready (W : World) (e : Env W) (left right : list Q) : @Motion_planning W :=
  final (bind (set_manip "left_arm" 0%nat) (fun _ => set_manip "right_arm" 1%nat)
           (fresh W e left right)).

(** Four runs of line 266 for the right arm: one that completes at the
    first strategy of each segment, one whose second segment exhausts the
    three strategies, one whose first segment does, and one that retracts
    in two segments.  In the first three the right arm is given [0; 0; 0],
    in the last [0; 0; 9]. *)
Definition path_ok : waypoints := [[0; 0; 0]; [1; 0; 0]; [2; 0; 0]]%Q.
Definition path_late : waypoints := [[0; 0; 0]; [4; 0; 0]; [5; 0; 0]]%Q.
Definition path_early : waypoints := [[4; 0; 0]; [9; 9; 9]]%Q.
Definition path_twice : waypoints := [[4; 0; 0]; [4; 0; 0]; [9; 9; 9]]%Q.

Definition world_of (path : waypoints) : World :=
  world path lower_limits contact_from_5 two_step.

Definition start_of (path : waypoints) : @Motion_planning (world_of path) :=
  ready (world_of path) rest [1; 1; 1]%Q [0; 0; 0]%Q.

Definition run_of (path : waypoints) : @outcome (world_of path) unit :=
  optimize "right_arm" [[9; 9; 9]%Q] "RRTConnect" (start_of path).

Definition world_twice : World :=
  world path_twice lower_limits contact_from_5 backing_off.

Definition start_twice : @Motion_planning world_twice :=
  ready world_twice rest [1; 1; 1]%Q [0; 0; 9]%Q.

Definition run_twice : @outcome world_twice unit :=
  optimize "right_arm" [[9; 9; 9]%Q] "RRTConnect" start_twice.

(** The object as it is when a strategy is chosen for the only segment of
    [path_early], for a right arm whose list is [right]. *)
Definition at_retraction (right : list Q) : @Motion_planning (world_of path_early) :=
  final (set_request "right_arm" [9; 9; 9]%Q 3
           (ready (world_of path_early) rest [1; 1; 1]%Q right)).

(** What a logged call looked like: segment, strategy and right-arm pose. *)
Definition seen {W : World} (pose : Env W -> list Q) (ev : @event W) : nat * nat * list Q :=
  (ev_segment ev, ev_strategy ev, pose (ev_env ev)).

(** The last call of a run (a call at rest when there is none). *)
Definition last_call {W : World} {A} (pose0 : Env W) (r : @outcome W A) : @event W :=
  default {| ev_segment := 0; ev_strategy := 0; ev_request := JDict []; ev_env := pose0 |}
          (last (calls (final r))).

Definition right_arm_pose (e : sim_env) : list Q := read_dofs [3; 4; 5]%nat (dofs e).

End Sim.

(** * Further operations and predicates *)

(** ** Collision checker set-up, lines 31-43 *)

(** The loop [j = 0; for i in collision_options: j = j|i] on Python's
    unbounded integers. *)
Definition collision_option_mask (collision_options : list Z) : Z :=
  fold_left Z.lor collision_options 0%Z.

Section CollisionSetup.

Context {W : World}.

(** The collision-checker objects of OpenRAVE and the three calls made on
    them: [op.RaveCreateCollisionChecker(env, name)],
    [checker.SetCollisionOptions(j)] and [env.SetCollisionChecker(checker)]. *)
Variable Checker : Type.
Variable RaveCreateCollisionChecker : Env W -> string -> Checker.
Variable Checker_SetCollisionOptions : Z -> Checker -> Checker.
Variable SetCollisionChecker : Checker -> Env W -> Env W.

(** [init_collision_checker(checker, collision_options)] *)
Definition init_collision_checker (checker : string) (collision_options : list Z) : @M W unit :=
  modify (fun s =>
    let collisionChecker := RaveCreateCollisionChecker (env s) checker in
    let j := collision_option_mask collision_options in
    with_env (SetCollisionChecker (Checker_SetCollisionOptions j collisionChecker) (env s)) s).

End CollisionSetup.

(** ** What a run may change of the store *)

Section StoreFrame.

Context {W : World}.

(** From [s] to [s'] the two attributes hold the same references, every
    list object other than the one stored for [manip] is as it was, and
    that one has kept its length and all its entries but the last. *)
Definition store_frame (manip : string) (s s' : @Motion_planning W) : Prop :=
  left_arm_DOF s' = left_arm_DOF s /\ right_arm_DOF s' = right_arm_DOF s /\
  (forall l, stored_ref manip s <> Some l -> heap s' !! l = heap s !! l) /\
  (forall l, stored_ref manip s = Some l ->
     length (deref l s') = length (deref l s) /\
     take (pred (length (deref l s))) (deref l s')
       = take (pred (length (deref l s))) (deref l s)).

(** What an exception other than ['No path is safe'] can be inside the
    segment loop: an index error, or the attribute error of an arm that was
    never given a configuration. *)
Definition loop_error (manip : string) (s : @Motion_planning W) (e : exn) : Prop :=
  e = IndexError \/ (e = AttributeError /\ stored_ref manip s = None).

End StoreFrame.

(** ** The escalation policy
    The calls a segment and a run are to make, written as functions of the
    environment and of the store of list objects. *)

Section Policy.

Context {W : World}.





End Policy.

(** ** Further stubs for concrete runs *)

Module Stub.

(** A world whose environment is the arm pose alone: posing a sample
    replaces it.  Two links touch when the first joint is at 5 or more. *)
Definition pose_world : World :=
  {| Env := list Q;
     GetArmIndices := fun _ => [0; 1; 2]%nat;
     SetDOFValues := fun vals _ _ => vals;
     SetActiveDOFs := fun _ e => e;
     SetActiveDOFValues := fun _ e => e;
     SetActiveManipulator := fun _ e => e;
     GetDOFLimits_lower := fun _ => [0; 0; 0]%Q;
     CO_Contacts := 4;
     SetCollisionOptions := fun _ e => e;
     CheckCollision := fun e => Qle_bool 5 (hd 0%Q e);
     PlanPath := fun _ _ _ => None;
     SimplifyPath := fun _ t => Some t;
     get_endEffector_fromDOF := fun w => w;
     linalg_norm_diff := Sim.l1;
     OptimizeProblem := fun _ e => [e] |}.

Definition pose_object : @Motion_planning pose_world :=
  @Build_Motion_planning pose_world [0; 0; 0]%Q None None "right_arm" [] [] [] ∅ [].

(** Collision checkers as their option masks, installed in the [options]
    field of the simulated environment. *)
Definition install_options (c : Z) (e : Sim.sim_env) : Sim.sim_env :=
  {| Sim.dofs := Sim.dofs e; Sim.active := Sim.active e; Sim.options := c |}.

(** Contact as soon as joint 0 (the first joint of the left arm) reaches 5. *)
Definition left_contact_from_5 (d : list Q) : bool :=
  Qle_bool 5 (default 0%Q (d !! 0%nat)).

Definition world_left : World :=
  Sim.world Sim.path_early Sim.lower_limits left_contact_from_5 Sim.two_step.

(** Only the right arm was given a configuration. *)
Definition only_right : @Motion_planning world_left :=
  final (set_manip "right_arm" 1%nat (Sim.fresh world_left Sim.rest [1; 1; 1]%Q [0; 0; 0]%Q)).

(** Both arms were given the same list, the one at reference 1, and the
    right arm is being planned. *)
Definition shared : @Motion_planning (Sim.world_of Sim.path_early) :=
  final (bind (set_manip "left_arm" 1%nat)
           (fun _ => bind (set_manip "right_arm" 1%nat)
              (fun _ => set_request "right_arm" [9; 9; 9]%Q 3))
           (Sim.fresh (Sim.world_of Sim.path_early) Sim.rest [1; 1; 1]%Q [0; 0; 9]%Q)).

Definition path_single : waypoints := [[0; 0; 0]]%Q.

End Stub.

(** * Properties of the embedding *)

(** * The safety validator *)

Section Validator.

Context {W : World}.

Implicit Types (ts : waypoints) (e : Env W) (idx : list nat).

Lemma pose_after_snoc idx ts t e :
  pose_after idx (ts ++ [t]) e = SetDOFValues W t idx (pose_after idx ts e).
Proof. unfold pose_after. by rewrite fold_left_app. Qed.

Lemma contact_at_cons idx t ts e k :
  contact_at idx (t :: ts) e (S k) = contact_at idx ts (SetDOFValues W t idx e) k.
Proof. reflexivity. Qed.

(** The loop stops at the first contact and is unsafe exactly then. *)
Lemma check_samples_unsafe idx ts e :
  fst (check_samples idx ts e) = false ->
  exists k, (k < length ts)%nat /\ contact_at idx ts e k = true /\
            (forall k', (k' < k)%nat -> contact_at idx ts e k' = false) /\
            snd (check_samples idx ts e) = pose_after idx (take (S k) ts) e.
Proof.
  revert e. induction ts as [|t ts IH]; intros e; simpl; [discriminate|].
  destruct (CheckCollision W (SetDOFValues W t idx e)) eqn:Hc; simpl.
  - intros _. exists 0%nat. repeat split; [lia | exact Hc | intros; lia].
  - intros Hu. destruct (IH _ Hu) as (k & Hk & Hck & Hlt & Hsnd).
    exists (S k). repeat split; [lia | exact Hck | | exact Hsnd].
    intros [|k'] Hk'; [exact Hc | rewrite contact_at_cons; apply Hlt; lia].
Qed.

Lemma check_samples_safe idx ts e :
  fst (check_samples idx ts e) = true ->
  (forall k, (k < length ts)%nat -> contact_at idx ts e k = false) /\
  snd (check_samples idx ts e) = pose_after idx ts e.
Proof.
  revert e. induction ts as [|t ts IH]; intros e; simpl.
  - intros _. split; [intros; lia | reflexivity].
  - destruct (CheckCollision W (SetDOFValues W t idx e)) eqn:Hc; simpl; [discriminate|].
    intros Hs. destruct (IH _ Hs) as [Hall Hsnd]. split; [|exact Hsnd].
    intros [|k] Hk; [exact Hc | rewrite contact_at_cons; apply Hall; lia].
Qed.

End Validator.

Section DictFacts.

Lemma dict_del_update k v d : dict_del k (dict_update k v d) = dict_del k d.
Proof.
  induction d as [|[k' v'] d IH]; simpl.
  - by rewrite String.eqb_refl.
  - destruct (String.eqb k k') eqn:E; simpl.
    + by rewrite String.eqb_refl.
    + by rewrite E, IH.
Qed.

Lemma dict_del_del k d : dict_del k (dict_del k d) = dict_del k d.
Proof.
  induction d as [|[k' v'] d IH]; simpl; [done|].
  destruct (String.eqb k k') eqn:E; simpl; [done|]. by rewrite E, IH.
Qed.

End DictFacts.

Section Frame.
Context {W : World}.
Implicit Types (s : @Motion_planning W).


Lemma init_retracted_run s :
  (exists e, e <> NoSafePath /\ init_retracted s = Raise e s) \/
  (exists limit l v,
     last (GetDOFLimits_lower W (env s)) = Some limit /\
     eval_arm_DOF (plan_arm s) s = Ret l s /\
     last (deref l s) = Some v /\
     let vals := <[ pred (length (deref l s)) := py_max limit (v - 5) ]> (deref l s) in
     init_retracted s =
       Ret tt (with_request (dict_update "init_info" (straight_line vals) (request s))
                 (with_heap (<[ l := vals ]> (heap s)) s))).
Proof.
  unfold init_retracted, eval_arm_DOF, set_init_info, bind, get, from_option, modify, ret, raise.
  destruct (last (GetDOFLimits_lower W (env s))) as [limit|]; [|left; eexists; split; [|reflexivity]; discriminate].
  destruct (String.eqb (plan_arm s) "left_arm").
  - destruct (left_arm_DOF s) as [l|]; [|left; eexists; split; [|reflexivity]; discriminate].
    destruct (last (deref l s)) as [v|] eqn:Hv; [|left; eexists; split; [|reflexivity]; discriminate].
    right. exists limit, l, v. repeat split; try done.
  - destruct (String.eqb (plan_arm s) "right_arm").
    + destruct (right_arm_DOF s) as [l|]; [|left; eexists; split; [|reflexivity]; discriminate].
      destruct (last (deref l s)) as [v|] eqn:Hv; [|left; eexists; split; [|reflexivity]; discriminate].
      right. exists limit, l, v. repeat split; try done.
    + left; eexists; split; [|reflexivity]; discriminate.
Qed.
End Frame.


#[local] Arguments request_document : simpl never.

Section Attempts.
Context {W : World}.
Implicit Types (s : @Motion_planning W).

Lemma choose_init_info_run manip w1 n j s :
  (j <= 2)%nat -> seg_inv manip w1 n s ->
  match choose_init_info j s with
  | Ret _ s1 =>
      env s1 = env s /\ calls s1 = calls s /\ traj s1 = traj s /\
      seg_inv manip w1 n s1 /\
      exists v, request s1 = request_document manip w1 n ++ [("init_info", v)] /\
                init_info_for j w1 v
  | Raise e s1 =>
      j = 1%nat /\ e <> NoSafePath /\ calls s1 = calls s /\ traj s1 = traj s
  end.
Proof.
  intros Hj (Hp & Ht & Hr).
  assert (Hfresh : forall v, dict_update "init_info" v (dict_del "init_info" (request s))
                     = request_document manip w1 n ++ [("init_info", v)]).
  { intros v. rewrite Hr. reflexivity. }
  assert (Hdel : forall v, dict_del "init_info"
                    (dict_update "init_info" v (dict_del "init_info" (request s)))
                     = request_document manip w1 n).
  { intros v. by rewrite dict_del_update, dict_del_del. }
  unfold choose_init_info, bind at 1, modify at 1.
  destruct j as [|[|[|j]]]; [| | |lia]; cbn [Nat.eqb]; cbv beta iota.
  - unfold bind, get, set_init_info, modify; simpl.
    split_and!; try done.
    + split_and!; [done | done |]. simpl. apply Hdel.
    + exists (straight_line w1). rewrite Ht. split; [apply Hfresh | done].
  - set (s0 := with_request _ s).
    destruct (init_retracted_run s0) as [(e & He & ->)|(limit & l & v & _ & _ & _ & ->)].
    + split_and!; done.
    + simpl.
      split_and!; try done.
      * split_and!; [done | done |]. simpl. apply Hdel.
      * eexists. split; [apply Hfresh|]. simpl. eauto.
  - unfold set_init_info, modify; simpl.
    split_and!; try done.
    + split_and!; [done | done |]. simpl. apply Hdel.
    + exists stationary. split; [apply Hfresh | done].
Qed.

Lemma attempt_run manip w1 n i j s :
  (j <= 2)%nat -> seg_inv manip w1 n s ->
  match attempt i j s with
  | Ret r s' =>
      exists ev, ev_segment ev = i /\ ev_strategy ev = j /\ ev_env ev = env s /\
        built_request manip w1 n j (ev_request ev) /\
        fst r = candidate ev /\ snd r = judged_safe manip ev /\
        env s' = snd (check_safe_env (GetArmIndices W manip) (candidate ev) (ev_env ev)) /\
        calls s' = calls s ++ [ev] /\ traj s' = traj s /\ seg_inv manip w1 n s'
  | Raise e s' => j = 1%nat /\ e <> NoSafePath /\ calls s' = calls s /\ traj s' = traj s
  end.
Proof.
  intros Hj Hinv. pose proof (choose_init_info_run manip w1 n j s Hj Hinv) as Hc.
  unfold attempt, bind at 1.
  destruct (choose_init_info j s) as [[] s1|e s1]; [|exact Hc].
  destruct Hc as (He & Hcalls & Htraj & (Hp & Ht & Hr) & v & Hreq & Hv).
  unfold bind, get, modify, check_safe, ret; simpl.
  eexists {| ev_segment := i; ev_strategy := j; ev_request := JDict (request s1); ev_env := env s1 |}.
  simpl.
  unfold judged_safe, candidate; simpl. rewrite Hp, Hcalls.
  split_and!; try done.
  exists v. by rewrite Hreq.
Qed.

End Attempts.



Section Segment.
Context {W : World}.
Implicit Types (s : @Motion_planning W).

Lemma attempts_run manip w1 n i s :
  seg_inv manip w1 n s ->
  exists g, segment_log manip i w1 n (env s) g /\
            attempts_outcome manip s g (attempts i [0; 1; 2]%nat None s).
Proof.
  intros Hinv. cbn [attempts]. unfold bind at 1.
  pose proof (attempt_run manip w1 n i 0 s (Nat.le_0_l _) Hinv) as H0.
  destruct (attempt i 0 s) as [r0 s0|e0 s0]; [|destruct H0 as [[=] _]].
  destruct H0 as (ev0 & Hs0 & Hj0 & He0 & Hq0 & Hc0 & Hv0 & Henv0 & Hcalls0 & Htraj0 & Hinv0).
  assert (Hlog1 : segment_log manip i w1 n (env s) [ev0]).
  { constructor; simpl; [lia | by repeat constructor | by rewrite Hj0
      | repeat constructor; by rewrite Hj0 | by intros ? [= <-] | by intros [|?] ??]. }
  destruct (snd r0) eqn:Hsafe0.
  { exists [ev0]. split; [done|]. unfold attempts_outcome; simpl.
    split_and!; [done | done |]. exists ev0. by rewrite Hc0, <- Hv0. }
  cbn [Nat.eqb]. cbv iota. unfold bind at 1.
  pose proof (attempt_run manip w1 n i 1 s0 ltac:(lia) Hinv0) as H1.
  destruct (attempt i 1 s0) as [r1 s1|e1 s1].
  2:{ destruct H1 as (_ & Hne & Hcalls1 & Htraj1).
      exists [ev0]. split; [done|]. unfold attempts_outcome; simpl.
      split_and!; [congruence | congruence | | ].
      - intros ? [= <-]. congruence.
      - split; [done | discriminate]. }
  destruct H1 as (ev1 & Hs1 & Hj1 & He1 & Hq1 & Hc1 & Hv1 & Henv1 & Hcalls1 & Htraj1 & Hinv1).
  assert (Hlog2 : segment_log manip i w1 n (env s) [ev0; ev1]).
  { constructor; simpl; [lia | by repeat constructor | by rewrite Hj0, Hj1
      | repeat constructor; [by rewrite Hj0 | by rewrite Hj1] | by intros ? [= <-] | ].
    intros [|[|?]] ?? ; simpl; try done. intros [= <-] [= <-]. split; congruence. }
  destruct (snd r1) eqn:Hsafe1.
  { exists [ev0; ev1]. split; [done|]. unfold attempts_outcome; simpl.
    split_and!; [by rewrite Hcalls1, Hcalls0, <- app_assoc | congruence |].
    exists ev1. by rewrite Hc1, <- Hv1. }
  cbn [Nat.eqb]. cbv iota. unfold bind at 1.
  pose proof (attempt_run manip w1 n i 2 s1 ltac:(lia) Hinv1) as H2.
  destruct (attempt i 2 s1) as [r2 s2|e2 s2]; [|destruct H2 as [[=] _]].
  destruct H2 as (ev2 & Hs2 & Hj2 & He2 & Hq2 & Hc2 & Hv2 & Henv2 & Hcalls2 & Htraj2 & Hinv2).
  exists [ev0; ev1; ev2]. split.
  { constructor; simpl; [lia | by repeat constructor | by rewrite Hj0, Hj1, Hj2
      | repeat constructor; [by rewrite Hj0 | by rewrite Hj1 | by rewrite Hj2]
      | by intros ? [= <-] | ].
    intros [|[|[|?]]] ?? ; simpl; try done; intros [= <-] [= <-]; split; congruence. }
  assert (Hc : calls s2 = calls s ++ [ev0; ev1; ev2]).
  { by rewrite Hcalls2, Hcalls1, Hcalls0, <- !app_assoc. }
  unfold attempts_outcome.
  destruct (snd r2) eqn:Hsafe2; simpl.
  - split_and!; [done | congruence |]. exists ev2. by rewrite Hc2, <- Hv2.
  - split_and!; [done | congruence | |done].
    intros ? [= <-]. congruence.
Qed.

Lemma refine_segment_run manip trajectory i w0 w1 s :
  trajectory !! i = Some w0 -> trajectory !! (i + 1)%nat = Some w1 ->
  exists g,
    segment_log manip i w1 (n_steps_of (displacement W w0 w1))
      (SetDOFValues W w0 (GetArmIndices W manip) (env s)) g /\
    segment_outcome manip s g (refine_segment manip trajectory i s).
Proof.
  intros H0 H1. unfold refine_segment. rewrite H0, H1.
  unfold from_option, bind at 1, ret at 1, bind at 1, ret at 1, bind at 1, set_request,
    modify at 1, bind at 1, modify at 1.
  set (n := n_steps_of _).
  set (s0 := with_env _ _).
  assert (Hinv : seg_inv manip w1 n s0) by done.
  destruct (attempts_run manip w1 n i s0 Hinv) as (g & Hlog & Hcalls & Htraj & Hres).
  exists g. split; [exact Hlog|].
  unfold segment_outcome, bind.
  destruct (attempts i [0; 1; 2]%nat None s0) as [res s1|e s1]; simpl in *.
  - destruct Hres as (ev & Hlast & Hsafe & ->). simpl.
    split; [done|]. exists ev. by rewrite Htraj.
  - by split.
Qed.

(** X22.  The environment the optimizer is called with: the first call of a
    segment sees the robot posed at the start waypoint; every retry sees the
    environment the validator left after the candidate before it. *)
Lemma retry_environment manip trajectory i w0 w1 s :
  trajectory !! i = Some w0 -> trajectory !! (i + 1)%nat = Some w1 ->
  exists g,
    calls (final (refine_segment manip trajectory i s)) = calls s ++ g /\
    (forall ev, head g = Some ev ->
       ev_env ev = SetDOFValues W w0 (GetArmIndices W manip) (env s)) /\
    (forall k ev ev', g !! k = Some ev -> g !! S k = Some ev' ->
       ev_env ev' = snd (check_safe_env (GetArmIndices W manip) (candidate ev) (ev_env ev))).
Proof.
  intros H0 H1.
  destruct (refine_segment_run manip trajectory i w0 w1 s H0 H1) as (g & Hlog & Hcalls & _).
  exists g. split_and!; [done | exact (sl_first _ _ _ _ _ _ Hlog) |].
  intros k ev ev' Hk Hk'. by destruct (sl_next _ _ _ _ _ _ Hlog k ev ev' Hk Hk').
Qed.

End Segment.


Section Run.
Context {W : World}.
Implicit Types (s : @Motion_planning W).

Lemma segments_run manip trajectory ixs s :
  Forall (fun i => (i + 1 < length trajectory)%nat) ixs ->
  exists evs out,
    run_log manip trajectory ixs evs out (raised (segments manip trajectory ixs s)) /\
    calls (final (segments manip trajectory ixs s)) = calls s ++ evs /\
    traj (final (segments manip trajectory ixs s)) = traj s ++ out.
Proof.
  revert s. induction ixs as [|i ixs IH]; intros s Hix.
  - exists [], []. simpl. by rewrite !app_nil_r.
  - inversion Hix as [|? ? Hi Hix']; subst.
    destruct (lookup_lt_is_Some_2 trajectory i ltac:(lia)) as [w0 Hw0].
    destruct (lookup_lt_is_Some_2 trajectory (i + 1) Hi) as [w1 Hw1].
    destruct (refine_segment_run manip trajectory i w0 w1 s Hw0 Hw1) as (g & Hlog & Hcalls & Hout).
    cbn [segments]. unfold bind.
    destruct (refine_segment manip trajectory i s) as [[] s1|e s1]; simpl in Hcalls, Hout.
    + destruct Hout as (ev & Hlast & Hsafe & Htraj).
      destruct (IH s1 Hix') as (evs & out & Hrun & Hc & Ht).
      exists (g ++ evs), (candidate ev ++ out). split_and!.
      * simpl. exists w0, w1, (env s), g, evs. split_and!; try done.
        left. by exists ev, out.
      * by rewrite Hc, Hcalls, app_assoc.
      * by rewrite Ht, Htraj, app_assoc.
    + destruct Hout as (Htraj & Hunsafe & He).
      exists g, []. split_and!.
      * simpl. exists w0, w1, (env s), g, []. split_and!; try done; [by rewrite app_nil_r|].
        right. split_and!; try done. by exists e.
      * done.
      * simpl. by rewrite app_nil_r.
Qed.

Lemma init_traj_calls manip jt alg s :
  calls (final (init_traj manip jt alg s)) = calls s.
Proof.
  unfold init_traj, bind, from_option, modify, get, ret, raise.
  destruct (get_manip manip); [|done]; simpl.
  destruct (right_arm_DOF s); [|done]; simpl.
  destruct (head jt); [|done]; simpl.
  destruct (PlanPath W _ _ _); [|done]; simpl.
  by destruct (SimplifyPath W _ _).
Qed.

Lemma optimize_no_plan manip jt alg s e s0 :
  init_traj manip jt alg s = Raise e s0 -> optimize manip jt alg s = Raise e s0.
Proof. intros H. unfold optimize, bind. by rewrite H. Qed.

Lemma optimize_run manip jt alg s trajectory s0 :
  init_traj manip jt alg s = Ret trajectory s0 ->
  exists evs,
    run_log manip trajectory (seq 0 (length trajectory - 1)) evs
      (traj (final (optimize manip jt alg s))) (raised (optimize manip jt alg s)) /\
    calls (final (optimize manip jt alg s)) = calls s ++ evs.
Proof.
  intros H. pose proof (init_traj_calls manip jt alg s) as Hc0.
  unfold optimize, bind. rewrite H in *. unfold modify. simpl in Hc0.
  destruct (segments_run manip trajectory (seq 0 (length trajectory - 1)) (with_traj [] s0))
    as (evs & out & Hrun & Hc & Ht).
  { apply Forall_forall. intros i Hi. apply elem_of_seq in Hi. lia. }
  exists evs. simpl in Hc, Ht. rewrite Ht, Hc, Hc0. done.
Qed.

End Run.

(** * The safety validator: verdict and side effect *)

Section ValidatorClaims.

Context {W : World}.

Lemma check_safe_unfold ts (s : @Motion_planning W) :
  check_safe ts s =
  Ret (fst (check_safe_env (GetArmIndices W (plan_arm s)) ts (env s)))
      (with_env (snd (check_safe_env (GetArmIndices W (plan_arm s)) ts (env s))) s).
Proof. reflexivity. Qed.

(** C3. [__check_safe] returns normally; it reports unsafe exactly when some
    sample, posed after the samples before it, reports contact between the
    two links, and safe exactly when no sample does.  It stops at the first
    contact: the environment it leaves is the one reached by posing the
    samples up to and including that one.  When the collision checker
    reports contact for every pose, a non-empty candidate is rejected at
    its first sample. *)
Theorem check_safe_verdict ts (s : @Motion_planning W) :
  let idx := GetArmIndices W (plan_arm s) in
  let e0 := SetCollisionOptions W (CO_Contacts W) (env s) in
  exists b e', check_safe ts s = Ret b (with_env e' s) /\
    (b = false <-> exists k, (k < length ts)%nat /\ contact_at idx ts e0 k = true) /\
    (b = true <-> forall k, (k < length ts)%nat -> contact_at idx ts e0 k = false) /\
    (forall k, (k < length ts)%nat -> contact_at idx ts e0 k = true ->
       (forall k', (k' < k)%nat -> contact_at idx ts e0 k' = false) ->
       b = false /\ e' = pose_after idx (take (S k) ts) e0) /\
    ((forall e, CheckCollision W e = true) -> forall t ts', ts = t :: ts' ->
       b = false /\ e' = SetDOFValues W t idx e0).
Proof.
  intros idx e0. rewrite check_safe_unfold. unfold check_safe_env. fold idx e0.
  eexists _, _. split; [reflexivity|].
  destruct (fst (check_samples idx ts e0)) eqn:Hb.
  - destruct (check_samples_safe idx ts e0 Hb) as [Hall Hsnd].
    split_and!.
    + split; [discriminate|]. intros (k & Hk & Hc). rewrite Hall in Hc; done.
    + split; [by intros _ | done].
    + intros k Hk Hc _. rewrite Hall in Hc; done.
    + intros Hcc t ts' ->. specialize (Hall 0%nat ltac:(simpl; lia)).
      unfold contact_at in Hall. rewrite Hcc in Hall. done.
  - destruct (check_samples_unsafe idx ts e0 Hb) as (k0 & Hk0 & Hc0 & Hfirst & Hsnd).
    assert (Huniq : forall k, (k < length ts)%nat -> contact_at idx ts e0 k = true ->
              (forall k', (k' < k)%nat -> contact_at idx ts e0 k' = false) -> k = k0).
    { intros k Hk Hc Hlt. destruct (Nat.lt_trichotomy k k0) as [Hl|[He|Hg]]; [|done|].
      - rewrite (Hfirst k Hl) in Hc. done.
      - rewrite (Hlt k0 Hg) in Hc0. done. }
    split_and!.
    + split; [|done]. intros _. by exists k0.
    + split; [discriminate|]. intros Hall. rewrite (Hall k0 Hk0) in Hc0. done.
    + intros k Hk Hc Hlt. rewrite (Huniq k Hk Hc Hlt). done.
    + intros Hcc t ts' ->. split; [done|].
      rewrite Hsnd. rewrite <- (Huniq 0%nat); [done | simpl; lia | apply Hcc | intros; lia].
Qed.

(** The environment [__check_safe] leaves: the last sample posed when the
    verdict is safe, the first contacting sample when it is unsafe. *)
Lemma check_safe_final_pose ts (s : @Motion_planning W) :
  let idx := GetArmIndices W (plan_arm s) in
  let e0 := SetCollisionOptions W (CO_Contacts W) (env s) in
  exists b e', check_safe ts s = Ret b (with_env e' s) /\
    (b = true -> forall pre t, ts = pre ++ [t] ->
       e' = SetDOFValues W t idx (pose_after idx pre e0)) /\
    (b = false -> exists pre t post, ts = pre ++ t :: post /\
       (forall k, (k < length pre)%nat -> contact_at idx ts e0 k = false) /\
       CheckCollision W (SetDOFValues W t idx (pose_after idx pre e0)) = true /\
       e' = SetDOFValues W t idx (pose_after idx pre e0)).
Proof.
  intros idx e0. rewrite check_safe_unfold. unfold check_safe_env. fold idx e0.
  eexists _, _. split; [reflexivity|]. split.
  - intros Hb pre t ->. destruct (check_samples_safe idx _ e0 Hb) as [_ ->].
    apply pose_after_snoc.
  - intros Hb. destruct (check_samples_unsafe idx ts e0 Hb) as (k & Hk & Hc & Hfirst & Hsnd).
    destruct (lookup_lt_is_Some_2 ts k Hk) as [t Ht].
    exists (take k ts), t, (drop (S k) ts).
    assert (Htake : take (S k) ts = take k ts ++ [t]) by (by apply take_S_r).
    unfold contact_at in Hc. rewrite Htake, pose_after_snoc in Hc, Hsnd.
    split_and!; [| |done|done].
    + by rewrite <- (take_drop_middle ts k t Ht) at 1.
    + intros k' Hk'. apply Hfirst. rewrite length_take in Hk'. lia.
Qed.

End ValidatorClaims.

(** C9. After [__check_safe] the robot is left at the last pose sampled: the
    final sample of the candidate when the verdict is safe, the first
    contacting sample when it is unsafe.  The pose current before the call
    is not put back: in the simulated environment the validator moves the
    right arm from [0; 0; 0] to [2; 0; 0]. *)
Theorem check_safe_leaves_last_sampled_pose :
  (forall (W : World) (ts : waypoints) (s : @Motion_planning W),
     let idx := GetArmIndices W (plan_arm s) in
     let e0 := SetCollisionOptions W (CO_Contacts W) (env s) in
     exists b e', check_safe ts s = Ret b (with_env e' s) /\
       (b = true -> forall pre t, ts = pre ++ [t] ->
          e' = SetDOFValues W t idx (pose_after idx pre e0)) /\
       (b = false -> exists pre t post, ts = pre ++ t :: post /\
          (forall k, (k < length pre)%nat -> contact_at idx ts e0 k = false) /\
          CheckCollision W (SetDOFValues W t idx (pose_after idx pre e0)) = true /\
          e' = SetDOFValues W t idx (pose_after idx pre e0))) /\
  (let W := Sim.world [] Sim.lower_limits Sim.never Sim.two_step in
   let s := final (set_request "right_arm" [2; 0; 0]%Q 3 (Sim.fresh W Sim.rest [] [0; 0; 0]%Q)) in
   let s' := final (check_safe [[1; 0; 0]; [2; 0; 0]]%Q s) in
   Sim.read_dofs [3; 4; 5]%nat (Sim.dofs (env s)) = [0; 0; 0]%Q /\
   Sim.read_dofs [3; 4; 5]%nat (Sim.dofs (env s')) = [2; 0; 0]%Q).
Proof.
  split; [intros W ts s; apply check_safe_final_pose|].
  vm_compute. done.
Qed.

(** * The whole run: order of the attempts *)

Section RunFacts.

Context {W : World}.

Implicit Types (g evs : list (@event W)) (ixs : list nat).

Lemma segment_log_unsafe_before manip i w1 n e1 g k ev :
  segment_log manip i w1 n e1 g ->
  g !! k = Some ev -> (S k < length g)%nat -> judged_safe manip ev = false.
Proof.
  intros Hlog Hk Hlt. destruct (lookup_lt_is_Some_2 g (S k) Hlt) as [ev' Hk'].
  by destruct (sl_next _ _ _ _ _ _ Hlog k ev ev' Hk Hk').
Qed.



Lemma segment_log_accepted manip i w1 n e1 g ev :
  segment_log manip i w1 n e1 g ->
  last g = Some ev -> judged_safe manip ev = true ->
  List.filter (judged_safe manip) g = [ev].
Proof.
  intros Hlog Hlast Hsafe.
  assert (Hpre : forall k x, g !! k = Some x -> (S k < length g)%nat ->
            judged_safe manip x = false)
    by (intros; by eapply segment_log_unsafe_before).
  clear Hlog. induction g as [|a g IH]; [done|].
  destruct g as [|b g].
  - simpl in *. injection Hlast as ->. by rewrite Hsafe.
  - change (List.filter (judged_safe manip) (a :: b :: g))
      with (if judged_safe manip a then a :: List.filter (judged_safe manip) (b :: g)
            else List.filter (judged_safe manip) (b :: g)).
    rewrite (Hpre 0%nat a eq_refl ltac:(simpl; lia)).
    apply IH; [done|]. intros k x Hk Hlt. apply (Hpre (S k) x Hk). simpl in *. lia.
Qed.

Lemma segment_log_rejected manip i w1 n e1 g :
  segment_log manip i w1 n e1 g ->
  (forall ev, last g = Some ev -> judged_safe manip ev = false) ->
  List.filter (judged_safe manip) g = [].
Proof.
  intros Hlog Hlast.
  assert (Hpre : forall k x, g !! k = Some x -> (S k < length g)%nat ->
            judged_safe manip x = false)
    by (intros; by eapply segment_log_unsafe_before).
  clear Hlog. induction g as [|a g IH]; [done|].
  destruct g as [|b g].
  - simpl in *. by rewrite (Hlast a eq_refl).
  - change (List.filter (judged_safe manip) (a :: b :: g))
      with (if judged_safe manip a then a :: List.filter (judged_safe manip) (b :: g)
            else List.filter (judged_safe manip) (b :: g)).
    rewrite (Hpre 0%nat a eq_refl ltac:(simpl; lia)).
    apply IH; [done|]. intros k x Hk Hlt. apply (Hpre (S k) x Hk). simpl in *. lia.
Qed.





Lemma run_log_requests manip trajectory ixs evs out res ev :
  run_log manip trajectory ixs evs out res -> ev ∈ evs ->
  exists w0 w1, trajectory !! ev_segment ev = Some w0 /\
                trajectory !! (ev_segment ev + 1)%nat = Some w1 /\
                built_request manip w1 (n_steps_of (displacement W w0 w1))
                  (ev_strategy ev) (ev_request ev).
Proof.
  revert evs out. induction ixs as [|i0 ixs IH]; intros evs out; simpl.
  - intros (-> & _) Hin. by apply elem_of_nil in Hin.
  - intros (w0 & w1 & e & g & rest & Hw0 & Hw1 & Hlog & -> & Hcase) Hin.
    apply elem_of_app in Hin as [Hin|Hin].
    + pose proof (sl_segment _ _ _ _ _ _ Hlog) as Hseg.
      pose proof (sl_request _ _ _ _ _ _ Hlog) as Hreq.
      rewrite Forall_forall in Hseg, Hreq. rewrite (Hseg _ Hin).
      exists w0, w1. split_and!; [done|done|]. by apply Hreq.
    + destruct Hcase as [(x & out' & _ & _ & _ & Hr)|(-> & _)];
        [|by apply elem_of_nil in Hin].
      exact (IH _ _ Hr Hin).
Qed.

End RunFacts.

Section Assembly.

Context {W : World}.

Implicit Types (g evs : list (@event W)) (ixs : list nat).

(** The samples appended by the segment loop are the accepted candidates,
    in the order of the calls, whether or not the loop completes. *)
Lemma run_log_out manip trajectory ixs evs out res :
  run_log manip trajectory ixs evs out res ->
  out = concat (map candidate (List.filter (judged_safe manip) evs)).
Proof.
  revert evs out. induction ixs as [|i ixs IH]; intros evs out; simpl.
  - by intros (-> & -> & _).
  - intros (w0 & w1 & e & g & rest & _ & _ & Hlog & -> & Hcase).
    rewrite List.filter_app, map_app, concat_app.
    destruct Hcase as [(ev & out' & Hlast & Hsafe & -> & Hr)|(-> & -> & Hunsafe & _)].
    + rewrite (segment_log_accepted _ _ _ _ _ _ _ Hlog Hlast Hsafe). simpl.
      rewrite app_nil_r. f_equal. by apply IH.
    + by rewrite (segment_log_rejected _ _ _ _ _ _ Hlog Hunsafe).
Qed.

(** A completed loop accepted one candidate per segment, in order. *)
Lemma run_log_accepted manip trajectory ixs evs out :
  run_log manip trajectory ixs evs out None ->
  map ev_segment (List.filter (judged_safe manip) evs) = ixs.
Proof.
  revert evs out. induction ixs as [|i ixs IH]; intros evs out; simpl.
  - by intros (-> & _).
  - intros (w0 & w1 & e & g & rest & _ & _ & Hlog & -> & Hcase).
    destruct Hcase as [(ev & out' & Hlast & Hsafe & -> & Hr)|(_ & _ & _ & x & [=] & _)].
    rewrite List.filter_app, map_app.
    rewrite (segment_log_accepted _ _ _ _ _ _ _ Hlog Hlast Hsafe). simpl.
    f_equal; [|by eapply IH].
    pose proof (sl_segment _ _ _ _ _ _ Hlog) as Hseg. rewrite Forall_forall in Hseg.
    apply Hseg. apply last_Some in Hlast as [l' ->]. apply elem_of_app. right. left.
Qed.

(** A call of strategy 2 judged unsafe ends the loop with
    ['No path is safe']. *)
Lemma run_log_exhausted manip trajectory ixs evs out res ev :
  run_log manip trajectory ixs evs out res ->
  ev ∈ evs -> ev_strategy ev = 2%nat -> judged_safe manip ev = false ->
  res = Some NoSafePath.
Proof.
  revert evs out. induction ixs as [|i ixs IH]; intros evs out; simpl.
  - intros (-> & _) Hin. by apply elem_of_nil in Hin.
  - intros (w0 & w1 & e & g & rest & _ & _ & Hlog & -> & Hcase) Hin Hstrat Hunsafe.
    assert (Hg : ev ∈ g -> length g = 3%nat /\ last g = Some ev).
    { intros Hing. apply list_elem_of_lookup in Hing as [k Hk].
      pose proof (sl_strategy _ _ _ _ _ _ Hlog) as Hs.
      pose proof (sl_length _ _ _ _ _ _ Hlog) as Hl.
      assert (Hks : map ev_strategy g !! k = Some 2%nat)
        by (by rewrite list_lookup_fmap, Hk; simpl; rewrite Hstrat).
      rewrite Hs in Hks. apply lookup_seq in Hks as [Hk2 Hklt]. simpl in Hk2. subst k.
      assert (length g = 3%nat) as Hlen by lia. split; [done|].
      by rewrite last_lookup, Hlen. }
    apply elem_of_app in Hin as [Hin|Hin].
    + destruct (Hg Hin) as [Hlen Hlast].
      destruct Hcase as [(x & out' & Hlast' & Hsafe & _)|(_ & _ & _ & x & -> & Hx)].
      * congruence.
      * f_equal. by apply Hx.
    + destruct Hcase as [(x & out' & _ & _ & _ & Hr)|(-> & _)];
        [|by apply elem_of_nil in Hin].
      by eapply IH.
Qed.

End Assembly.

Section RunClaims.

Context {W : World}.

Implicit Types (s : @Motion_planning W) (evs : list (@event W)).

Lemma optimize_log manip jt alg s trajectory s0 evs :
  init_traj manip jt alg s = Ret trajectory s0 ->
  calls (final (optimize manip jt alg s)) = calls s ++ evs ->
  run_log manip trajectory (seq 0 (length trajectory - 1)) evs
    (traj (final (optimize manip jt alg s))) (raised (optimize manip jt alg s)).
Proof.
  intros Hinit Hcalls.
  destruct (optimize_run manip jt alg s trajectory s0 Hinit) as (evs' & Hrun & Hcalls').
  rewrite Hcalls' in Hcalls. apply app_inv_head in Hcalls. by subst.
Qed.

(** C2. Every request handed to the optimizer for a segment carries the step
    count [max(ceil(dis / 0.5), 3)], where [dis] is the distance between the
    end-effector positions of the segment's two waypoints; the count is at
    least 3.  A displacement of 0.3 gives 3 steps and one of 1.7 gives 4. *)
Theorem step_count manip jt alg s trajectory s0 evs :
  init_traj manip jt alg s = Ret trajectory s0 ->
  calls (final (optimize manip jt alg s)) = calls s ++ evs ->
  (forall ev, ev ∈ evs ->
     exists w0 w1,
       trajectory !! ev_segment ev = Some w0 /\
       trajectory !! (ev_segment ev + 1)%nat = Some w1 /\
       let dis := linalg_norm_diff W (get_endEffector_fromDOF W w1)
                    (get_endEffector_fromDOF W w0) in
       request_n_steps (ev_request ev) = Some (Z.max (Qceiling (dis / (1 # 2))) 3) /\
       (3 <= Z.max (Qceiling (dis / (1 # 2))) 3)%Z) /\
  n_steps_of (3 # 10) = 3%Z /\ n_steps_of (17 # 10) = 4%Z.
Proof.
  intros Hinit Hcalls. split; [|by split].
  pose proof (optimize_log _ _ _ _ _ _ _ Hinit Hcalls) as Hrun.
  intros ev Hin.
  destruct (run_log_requests _ _ _ _ _ _ _ Hrun Hin) as (w0 & w1 & Hw0 & Hw1 & v & Hreq & _).
  exists w0, w1. split_and!; [done | done |]. cbv zeta.
  split; [by rewrite Hreq | lia].
Qed.

(** C7. When [optimize] completes, [traj] is the concatenation of the
    accepted candidates in the order of the waypoint pairs, one per pair;
    its length is the sum of their lengths.  Nothing is reordered and no
    sample is dropped where two candidates meet. *)
Theorem assembled_trajectory manip jt alg s s' evs :
  optimize manip jt alg s = Ret tt s' ->
  calls s' = calls s ++ evs ->
  let accepted := List.filter (judged_safe manip) evs in
  exists trajectory s0,
    init_traj manip jt alg s = Ret trajectory s0 /\
    map ev_segment accepted = seq 0 (length trajectory - 1) /\
    traj s' = concat (map candidate accepted) /\
    length (traj s') = list_sum (map (fun ev => length (candidate ev)) accepted).
Proof.
  intros Hopt Hcalls accepted.
  destruct (init_traj manip jt alg s) as [trajectory s0|e s0] eqn:Hinit.
  2:{ rewrite (optimize_no_plan _ _ _ _ _ _ Hinit) in Hopt. done. }
  exists trajectory, s0. split; [done|].
  pose proof (optimize_log manip jt alg s trajectory s0 evs Hinit) as Hrun.
  rewrite Hopt in Hrun. simpl in Hrun. specialize (Hrun Hcalls).
  pose proof (run_log_out _ _ _ _ _ _ Hrun) as Hout.
  split_and!; [by eapply run_log_accepted | done |].
  rewrite Hout. fold accepted. clear. induction accepted as [|ev l IH]; simpl; [done|].
  by rewrite length_app, IH.
Qed.

(** What [traj] holds when a segment has exhausted the three strategies:
    the candidates accepted for the segments before it, which line 193 had
    appended; line 192 raises without touching the attribute. *)
Lemma failed_run_accumulator manip jt alg s trajectory s0 evs ev :
  init_traj manip jt alg s = Ret trajectory s0 ->
  calls (final (optimize manip jt alg s)) = calls s ++ evs ->
  ev ∈ evs -> ev_strategy ev = 2%nat -> judged_safe manip ev = false ->
  raised (optimize manip jt alg s) = Some NoSafePath /\
  traj (final (optimize manip jt alg s))
    = concat (map candidate (List.filter (judged_safe manip) evs)).
Proof.
  intros Hinit Hcalls Hin Hstrat Hunsafe.
  pose proof (optimize_log _ _ _ _ _ _ _ Hinit Hcalls) as Hrun.
  pose proof (run_log_exhausted _ _ _ _ _ _ _ Hrun Hin Hstrat Hunsafe) as Hres.
  pose proof (run_log_out _ _ _ _ _ _ Hrun) as Hout.
  by split.
Qed.

(** C4. When all three strategies of a segment gave unsafe candidates, that
    is, when some call of strategy 2 is judged unsafe, the whole run fails
    with ['No path is safe']: [optimize] raises it and returns nothing, and
    the script ends with that exception in the state of the raise, so the
    playback of line 267 does not run and nothing of the candidates accepted
    for the earlier segments is played back. *)
Theorem exhausted_run manip jt alg s trajectory s0 evs ev :
  init_traj manip jt alg s = Ret trajectory s0 ->
  calls (final (optimize manip jt alg s)) = calls s ++ evs ->
  ev ∈ evs -> ev_strategy ev = 2%nat -> judged_safe manip ev = false ->
  exists s',
    optimize manip jt alg s = Raise NoSafePath s' /\
    plan_and_play manip jt alg s = Raise NoSafePath s' /\
    forall s'', plan_and_play manip jt alg s <> Ret tt s''.
Proof.
  intros Hinit Hcalls Hin Hstrat Hunsafe.
  pose proof (optimize_log _ _ _ _ _ _ _ Hinit Hcalls) as Hrun.
  pose proof (run_log_exhausted _ _ _ _ _ _ _ Hrun Hin Hstrat Hunsafe) as Hres.
  unfold plan_and_play, bind.
  destruct (optimize manip jt alg s) as [[] s'|e s']; simpl in *; [done|].
  injection Hres as ->. by exists s'.
Qed.

(** C8. The document handed to the optimizer at every call has exactly the
    keys [basic_info], [costs], [constraints] and [init_info], with the
    fixed contents of [__set_request] for the segment's end waypoint and
    step count and the [init_info] of the strategy of the call;
    [__set_request] itself sets no [init_info]. *)
Theorem request_schema manip jt alg s trajectory s0 evs :
  init_traj manip jt alg s = Ret trajectory s0 ->
  calls (final (optimize manip jt alg s)) = calls s ++ evs ->
  (forall w n s1, dict_get "init_info" (request (final (set_request manip w n s1))) = None) /\
  forall ev, ev ∈ evs ->
    exists w1 n d init,
      trajectory !! (ev_segment ev + 1)%nat = Some w1 /\
      ev_request ev = JDict d /\
      dict_keys d = ["basic_info"; "costs"; "constraints"; "init_info"] /\
      dict_get "basic_info" d =
        Some (JDict [("n_steps", JInt n); ("manip", JStr manip);
                     ("start_fixed", JBool true)]) /\
      dict_get "costs" d =
        Some (JList
          [JDict [("type", JStr "joint_vel");
                  ("params", JDict [("coeffs", JList [JInt 100; JInt 100; JInt 1])])];
           JDict [("type", JStr "collision");
                  ("params", JDict [("coeffs", JList [JInt 10000]);
                                    ("dist_pen", JList [JFloat (1 # 10)]);
                                    ("continuous", JBool true)])];
           JDict [("type", JStr "collision");
                  ("params", JDict [("coeffs", JList [JInt 10000]);
                                    ("dist_pen", JList [JFloat (1 # 10)]);
                                    ("continuous", JBool false)])]]) /\
      dict_get "constraints" d =
        Some (JList
          [JDict [("type", JStr "joint");
                  ("params", JDict [("vals", JList (map JFloat w1))])];
           JDict [("type", JStr "cart_vel"); ("name", JStr "s0_vel");
                  ("params", JDict [("max_displacement", JInt 1);
                                    ("first_step", JInt 0);
                                    ("last_step", JInt (n - 1));
                                    ("link", JStr "s0")])];
           JDict [("type", JStr "cart_vel"); ("name", JStr "s1_vel");
                  ("params", JDict [("max_displacement", JInt 1);
                                    ("first_step", JInt 0);
                                    ("last_step", JInt (n - 1));
                                    ("link", JStr "s1")])]]) /\
      dict_get "init_info" d = Some init /\
      match ev_strategy ev with
      | 0 => init = JDict [("type", JStr "straight_line");
                           ("endpoint", JList (map JFloat w1))]
      | 1 => exists pull_back,
               init = JDict [("type", JStr "straight_line");
                             ("endpoint", JList (map JFloat pull_back))]
      | 2 => init = JDict [("type", JStr "stationary")]
      | _ => False
      end%nat.
Proof.
  intros Hinit Hcalls. split; [done|].
  pose proof (optimize_log _ _ _ _ _ _ _ Hinit Hcalls) as Hrun.
  intros ev Hin.
  destruct (run_log_requests _ _ _ _ _ _ _ Hrun Hin) as (w0 & w1 & Hw0 & Hw1 & v & Hreq & Hv).
  eexists w1, (n_steps_of (displacement W w0 w1)), _, v.
  split_and!; [done | exact Hreq | done | done | done | done | done |].
  exact Hv.
Qed.

End RunClaims.

(** * The retraction strategy *)

Section Retraction.

Context {W : World}.

Implicit Types (s : @Motion_planning W).

Lemma dict_get_update k v d : dict_get k (dict_update k v d) = Some v.
Proof.
  induction d as [|[k' v'] d IH]; simpl.
  - by rewrite String.eqb_refl.
  - destruct (String.eqb k k') eqn:E; simpl; [by rewrite String.eqb_refl | by rewrite E].
Qed.


Lemma py_max_spec (a b : Q) :
  (py_max a b == Qmax a b)%Q /\ (a <= py_max a b)%Q /\ (b <= py_max a b)%Q.
Proof.
  unfold py_max. destruct (Qle_bool b a) eqn:E.
  - apply Qle_bool_imp_le in E. split_and!; [by rewrite Q.max_l | apply Qle_refl | done].
  - assert (a < b)%Q as Hlt.
    { apply Qnot_le_lt. intros H. apply Qle_bool_iff in H. congruence. }
    split_and!; [rewrite Q.max_r; [reflexivity | by apply Qlt_le_weak]
                | by apply Qlt_le_weak | apply Qle_refl].
Qed.

(** The branch [j == 1] on a well-formed object: the state it leaves. *)
Lemma choose_retracted s limit l vs v :
  last (GetDOFLimits_lower W (env s)) = Some limit ->
  stored_ref (plan_arm s) s = Some l ->
  deref l s = vs ++ [v] ->
  choose_init_info 1 s =
    Ret tt (with_request
              (dict_update "init_info" (straight_line (vs ++ [py_max limit (v - 5)]))
                 (dict_del "init_info" (request s)))
              (with_heap (<[ l := vs ++ [py_max limit (v - 5)] ]> (heap s))
                 (with_request (dict_del "init_info" (request s)) s))).
Proof.
  intros Hlim Hl Hv.
  assert (Hins : <[ pred (length (vs ++ [v])) := py_max limit (v - 5) ]> (vs ++ [v])
                 = vs ++ [py_max limit (v - 5)]).
  { rewrite length_app. simpl. rewrite Nat.add_1_r. simpl.
    rewrite insert_app_r_alt by lia. by rewrite Nat.sub_diag. }
  unfold choose_init_info, init_retracted, eval_arm_DOF, set_init_info, bind, get,
    from_option, modify, ret, raise.
  cbn [Nat.eqb]. cbv beta iota.
  change (env (with_request (dict_del "init_info" (request s)) s)) with (env s).
  rewrite Hlim.
  change (plan_arm (with_request (dict_del "init_info" (request s)) s)) with (plan_arm s).
  change (left_arm_DOF (with_request (dict_del "init_info" (request s)) s))
    with (left_arm_DOF s).
  change (right_arm_DOF (with_request (dict_del "init_info" (request s)) s))
    with (right_arm_DOF s).
  assert (Href : (if String.eqb (plan_arm s) "left_arm" then left_arm_DOF s
                  else if String.eqb (plan_arm s) "right_arm" then right_arm_DOF s
                  else None) = Some l) by exact Hl.
  destruct (String.eqb (plan_arm s) "left_arm");
    [|destruct (String.eqb (plan_arm s) "right_arm"); [|done]];
    rewrite Href;
    change (deref l (with_request (dict_del "init_info" (request s)) s)) with (deref l s);
    rewrite Hv, last_snoc, Hins; reflexivity.
Qed.

(** C6. In the branch [j == 1], for the limit [L] read from the joint-limit
    array and the stored last value [v], the pulled-back value written to
    the request is Python's [max(L, v - 5)]; it is the maximum of the two
    and never below [L]. *)
Theorem retraction_clamped s limit l vs v :
  last (GetDOFLimits_lower W (env s)) = Some limit ->
  stored_ref (plan_arm s) s = Some l ->
  deref l s = vs ++ [v] ->
  exists s', choose_init_info 1 s = Ret tt s' /\
    dict_get "init_info" (request s') =
      Some (JDict [("type", JStr "straight_line");
                   ("endpoint", JList (map JFloat (vs ++ [py_max limit (v - 5)])))]) /\
    (py_max limit (v - 5) == Qmax limit (v - 5))%Q /\
    (limit <= py_max limit (v - 5))%Q.
Proof.
  intros Hlim Hl Hv. eexists. split; [by apply choose_retracted|].
  simpl. split; [apply dict_get_update|].
  destruct (py_max_spec limit (v - 5)) as (? & ? & _). done.
Qed.

(** The validator, the request builder and the other two strategies leave
    the store of list objects alone. *)
Lemma check_safe_heap ts s : heap (final (check_safe ts s)) = heap s.
Proof. reflexivity. Qed.

Lemma set_request_heap manip w n s : heap (final (set_request manip w n s)) = heap s.
Proof. reflexivity. Qed.

Lemma choose_init_info_heap j s : j <> 1%nat -> heap (final (choose_init_info j s)) = heap s.
Proof. intros Hj. by destruct j as [|[|[|j]]]. Qed.

Lemma attempt_heap i j s : j <> 1%nat -> heap (final (attempt i j s)) = heap s.
Proof. intros Hj. by destruct j as [|[|[|j]]]. Qed.

Lemma stored_ref_frame name s s' :
  left_arm_DOF s' = left_arm_DOF s -> right_arm_DOF s' = right_arm_DOF s ->
  stored_ref name s' = stored_ref name s.
Proof. unfold stored_ref. by intros -> ->. Qed.

(** C10, as the code has it.  The branch [j == 1] overwrites the last
    entry of the stored list object itself with [max(limit, v - 5)]: the
    attributes keep their references and the store changes at the
    reference, so every holder of the list sees the new value.  The entry
    changes unless [v] already equals the limit, in which case it is the
    limit again.  A later pass through the branch, the store not having
    been touched in between, retracts from the value written by this one. *)
Theorem retraction_in_place s limit l vs v :
  last (GetDOFLimits_lower W (env s)) = Some limit ->
  stored_ref (plan_arm s) s = Some l ->
  deref l s = vs ++ [v] ->
  exists s', choose_init_info 1 s = Ret tt s' /\
    let p := py_max limit (v - 5) in
    heap s' = <[ l := vs ++ [p] ]> (heap s) /\
    left_arm_DOF s' = left_arm_DOF s /\ right_arm_DOF s' = right_arm_DOF s /\
    deref l s' = vs ++ [p] /\
    (~ (v == limit)%Q -> ~ (p == v)%Q) /\
    ((v == limit)%Q -> p = limit) /\
    forall s2 limit2,
      heap s2 = heap s' -> plan_arm s2 = plan_arm s ->
      left_arm_DOF s2 = left_arm_DOF s -> right_arm_DOF s2 = right_arm_DOF s ->
      last (GetDOFLimits_lower W (env s2)) = Some limit2 ->
      exists s3, choose_init_info 1 s2 = Ret tt s3 /\
                 deref l s3 = vs ++ [py_max limit2 (p - 5)].
Proof.
  intros Hlim Hl Hv. eexists. split; [by apply choose_retracted|].
  cbv zeta.
  assert (Hd : forall s1 : @Motion_planning W, heap s1 = <[ l := vs ++ [py_max limit (v - 5)] ]> (heap s) ->
            deref l s1 = vs ++ [py_max limit (v - 5)]).
  { intros s1 H1. unfold deref. by rewrite H1, lookup_insert_eq. }
  split_and!; try done.
  - by apply Hd.
  - intros Hne Heq. unfold py_max in Heq. destruct (Qle_bool (v - 5) limit).
    + apply Hne. by symmetry.
    + revert Heq. unfold Qeq, Qminus, Qplus, Qopp. simpl. lia.
  - intros Heq. unfold py_max.
    destruct (Qle_bool (v - 5) limit) eqn:E; [done|].
    exfalso. assert (v - 5 <= limit)%Q as H; [|apply Qle_bool_iff in H; congruence].
    rewrite Heq. unfold Qle, Qminus, Qplus, Qopp. simpl. lia.
  - intros s2 limit2 Hh Hp Hleft Hright Hlim2.
    eexists. split.
    + apply choose_retracted; [done| |by apply Hd].
      rewrite Hp. rewrite (stored_ref_frame _ s s2); done.
    + unfold deref. simpl. by rewrite lookup_insert_eq.
Qed.

End Retraction.


(** * Runs in the simulated environment *)

Section SimRuns.

Import Sim.

Local Open Scope Q_scope.

Lemma step_count_witness :
  init_traj "right_arm" [[9; 9; 9]] "RRTConnect" (start_of path_ok)
    = Ret path_ok (final (init_traj "right_arm" [[9; 9; 9]] "RRTConnect" (start_of path_ok))) /\
  map request_n_steps (map ev_request (calls (final (run_of path_ok))))
    = [Some 3%Z; Some 3%Z] /\
  forall ev, ev ∈ calls (final (run_of path_ok)) ->
    exists w0 w1,
      path_ok !! ev_segment ev = Some w0 /\
      path_ok !! (ev_segment ev + 1)%nat = Some w1 /\
      request_n_steps (ev_request ev) = Some (Z.max (Qceiling (l1 w1 w0 / (1 # 2))) 3) /\
      (3 <= Z.max (Qceiling (l1 w1 w0 / (1 # 2))) 3)%Z.
Proof.
  assert (Hinit : init_traj "right_arm" [[9; 9; 9]] "RRTConnect" (start_of path_ok)
    = Ret path_ok (final (init_traj "right_arm" [[9; 9; 9]] "RRTConnect" (start_of path_ok))))
    by (vm_compute; reflexivity).
  assert (Hcalls : calls (final (optimize "right_arm" [[9; 9; 9]] "RRTConnect" (start_of path_ok)))
    = calls (start_of path_ok) ++ calls (final (run_of path_ok)))
    by (vm_compute; reflexivity).
  split; [exact Hinit|]. split; [vm_compute; reflexivity|].
  exact (proj1 (@step_count (world_of path_ok) "right_arm" [[9; 9; 9]] "RRTConnect"
                  (start_of path_ok) path_ok _ (calls (final (run_of path_ok))) Hinit Hcalls)).
Defined.

Lemma assembled_trajectory_witness :
  optimize "right_arm" [[9; 9; 9]] "RRTConnect" (start_of path_ok)
    = Ret tt (final (run_of path_ok)) /\
  traj (final (run_of path_ok)) = [[0; 0; 0]; [1; 0; 0]; [1; 0; 0]; [2; 0; 0]] /\
  exists trajectory s0,
    init_traj "right_arm" [[9; 9; 9]] "RRTConnect" (start_of path_ok) = Ret trajectory s0 /\
    map ev_segment (List.filter (judged_safe "right_arm") (calls (final (run_of path_ok))))
      = seq 0 (length trajectory - 1) /\
    traj (final (run_of path_ok))
      = concat (map candidate
                  (List.filter (judged_safe "right_arm") (calls (final (run_of path_ok))))) /\
    length (traj (final (run_of path_ok)))
      = list_sum (map (fun ev => length (candidate ev))
                    (List.filter (judged_safe "right_arm") (calls (final (run_of path_ok))))).
Proof.
  assert (Hrun : optimize "right_arm" [[9; 9; 9]] "RRTConnect" (start_of path_ok)
                 = Ret tt (final (run_of path_ok))) by (vm_compute; reflexivity).
  assert (Hcalls : calls (final (run_of path_ok))
                   = calls (start_of path_ok) ++ calls (final (run_of path_ok)))
    by (vm_compute; reflexivity).
  split; [exact Hrun|]. split; [vm_compute; reflexivity|].
  exact (@assembled_trajectory (world_of path_ok) "right_arm" [[9; 9; 9]] "RRTConnect"
           (start_of path_ok) (final (run_of path_ok)) (calls (final (run_of path_ok)))
           Hrun Hcalls).
Defined.

(** The second segment of [path_late] exhausts the three strategies, after
    the first segment was accepted at strategy 0. *)
Lemma late_exhaustion_log :
  raised (run_of path_late) = Some NoSafePath /\
  map (fun ev => (ev_segment ev, ev_strategy ev, judged_safe "right_arm" ev))
      (calls (final (run_of path_late)))
    = [(0, 0, true); (1, 0, false); (1, 1, false); (1, 2, false)]%nat /\
  traj (final (run_of path_late)) = [[0; 0; 0]; [1; 0; 0]] /\
  traj (final (run_of path_late)) <> [].
Proof. vm_compute. split_and!; done. Defined.

Lemma exhausted_run_witness :
  (last_call (W := world_of path_late) rest (run_of path_late)
     ∈ calls (final (run_of path_late)) /\
   ev_strategy (last_call (W := world_of path_late) rest (run_of path_late)) = 2%nat /\
   judged_safe "right_arm"
     (last_call (W := world_of path_late) rest (run_of path_late)) = false) /\
  exists s',
    optimize "right_arm" [[9; 9; 9]] "RRTConnect" (start_of path_late) = Raise NoSafePath s' /\
    plan_and_play "right_arm" [[9; 9; 9]] "RRTConnect" (start_of path_late)
      = Raise NoSafePath s' /\
    forall s'', plan_and_play "right_arm" [[9; 9; 9]] "RRTConnect" (start_of path_late)
                <> Ret tt s''.
Proof.
  assert (Hinit : init_traj "right_arm" [[9; 9; 9]] "RRTConnect" (start_of path_late)
    = Ret path_late (final (init_traj "right_arm" [[9; 9; 9]] "RRTConnect" (start_of path_late))))
    by (vm_compute; reflexivity).
  assert (Hcalls : calls (final (optimize "right_arm" [[9; 9; 9]] "RRTConnect" (start_of path_late)))
    = calls (start_of path_late) ++ calls (final (run_of path_late)))
    by (vm_compute; reflexivity).
  assert (Hin : last_call (W := world_of path_late) rest (run_of path_late)
                  ∈ calls (final (run_of path_late))).
  { apply list_elem_of_lookup. exists 3%nat. vm_compute. reflexivity. }
  assert (Hs : ev_strategy (last_call (W := world_of path_late) rest (run_of path_late)) = 2%nat)
    by (vm_compute; reflexivity).
  assert (Hu : judged_safe "right_arm"
                 (last_call (W := world_of path_late) rest (run_of path_late)) = false)
    by (vm_compute; reflexivity).
  split; [exact (conj Hin (conj Hs Hu))|].
  exact (@exhausted_run (world_of path_late) "right_arm" [[9; 9; 9]] "RRTConnect"
           (start_of path_late) path_late _ (calls (final (run_of path_late))) _
           Hinit Hcalls Hin Hs Hu).
Defined.

Lemma request_schema_witness :
  length (calls (final (run_of path_late))) = 4%nat /\
  forall ev, ev ∈ calls (final (run_of path_late)) ->
    exists w1 n d init,
      path_late !! (ev_segment ev + 1)%nat = Some w1 /\
      ev_request ev = JDict d /\
      dict_keys d = ["basic_info"; "costs"; "constraints"; "init_info"] /\
      dict_get "basic_info" d =
        Some (JDict [("n_steps", JInt n); ("manip", JStr "right_arm");
                     ("start_fixed", JBool true)]) /\
      dict_get "init_info" d = Some init.
Proof.
  assert (Hinit : init_traj "right_arm" [[9; 9; 9]] "RRTConnect" (start_of path_late)
    = Ret path_late (final (init_traj "right_arm" [[9; 9; 9]] "RRTConnect" (start_of path_late))))
    by (vm_compute; reflexivity).
  assert (Hcalls : calls (final (optimize "right_arm" [[9; 9; 9]] "RRTConnect" (start_of path_late)))
    = calls (start_of path_late) ++ calls (final (run_of path_late)))
    by (vm_compute; reflexivity).
  split; [vm_compute; reflexivity|].
  intros ev Hin.
  destruct (proj2 (@request_schema (world_of path_late) "right_arm" [[9; 9; 9]] "RRTConnect"
              (start_of path_late) path_late _ (calls (final (run_of path_late)))
              Hinit Hcalls) ev Hin)
    as (w1 & n & d & init & H1 & H2 & H3 & H4 & _ & _ & H7 & _).
  exists w1, n, d, init. exact (conj H1 (conj H2 (conj H3 (conj H4 H7)))).
Defined.

(** The object as it is when strategy 1 is chosen for a right arm whose
    stored list is [0; 0; 9], with limit 0. *)
Lemma retraction_clamped_witness :
  exists s', choose_init_info 1 (at_retraction [0; 0; 9]) = Ret tt s' /\
    dict_get "init_info" (request s') =
      Some (JDict [("type", JStr "straight_line");
                   ("endpoint", JList (map JFloat ([0; 0] ++ [py_max 0 (9 - 5)])))]) /\
    (py_max 0 (9 - 5) == Qmax 0 (9 - 5)) /\
    (0 <= py_max 0 (9 - 5)).
Proof.
  exact (@retraction_clamped (world_of path_early) (at_retraction [0; 0; 9]) 0 1%nat [0; 0] 9
           eq_refl eq_refl eq_refl).
Defined.

Lemma retraction_in_place_witness :
  exists s', choose_init_info 1 (at_retraction [0; 0; 9]) = Ret tt s' /\
    heap s' = <[ 1%nat := [0; 0] ++ [py_max 0 (9 - 5)] ]> (heap (at_retraction [0; 0; 9])) /\
    deref 1%nat s' = [0; 0] ++ [py_max 0 (9 - 5)].
Proof.
  destruct (@retraction_in_place (world_of path_early) (at_retraction [0; 0; 9]) 0 1%nat [0; 0] 9
              eq_refl eq_refl eq_refl)
    as (s' & Hrun & Hheap & _ & _ & Hd & _).
  exists s'. exact (conj Hrun (conj Hheap Hd)).
Defined.

(** The right arm is given [0; 0; 0] and the limit is 0: strategy 1 is
    tried for the only segment of [path_early], and the stored list still
    equals the configuration given to [set_manip]. *)
Lemma retraction_at_limit_keeps_record :
  right_arm_DOF (start_of path_early) = Some 1%nat /\
  deref 1%nat (start_of path_early) = [0; 0; 0] /\
  strategies_of 0 (calls (final (run_of path_early))) = [0; 1; 2]%nat /\
  deref 1%nat (final (run_of path_early)) = [0; 0; 0].
Proof. vm_compute. split_and!; reflexivity. Defined.

(** Two segments of [path_twice] go through strategy 1: the stored list,
    given as [0; 0; 9], is retracted to 4 and then, from 4, to the limit 0;
    the two requests of strategy 1 carry these two endpoints. *)
Lemma retraction_accumulates :
  deref 1%nat start_twice = [0; 0; 9] /\
  map (fun ev => (ev_segment ev, ev_strategy ev, dict_get "init_info"
                    match ev_request ev with JDict d => d | _ => [] end))
      (List.filter (fun ev => Nat.eqb (ev_strategy ev) 1) (calls (final run_twice)))
    = [(0%nat, 1%nat, Some (straight_line [0; 0; 9 - 5]));
       (1%nat, 1%nat, Some (straight_line [0; 0; 0]))] /\
  deref 1%nat (final run_twice) = [0; 0; 0].
Proof. vm_compute. split_and!; reflexivity. Qed.

(** C5 on [path_early].  The first call of the segment is made with the
    right arm at the start waypoint [4; 0; 0].  Its candidate is rejected
    at the sample [5; 0; 0], where the validator leaves the robot; the two
    retries are made from that pose, not from the start waypoint. *)
Theorem retry_starts_from_contact_pose :
  path_early !! 0%nat = Some [4; 0; 0] /\
  map (seen (W := world_of path_early) right_arm_pose) (calls (final (run_of path_early)))
    = [(0%nat, 0%nat, [4; 0; 0]); (0%nat, 1%nat, [5; 0; 0]); (0%nat, 2%nat, [5; 0; 0])] /\
  map (judged_safe "right_arm") (calls (final (run_of path_early))) = [false; false; false] /\
  ~ (exists ev : @event (world_of path_early),
       ev ∈ calls (final (run_of path_early)) /\ ev_strategy ev = 1%nat /\
       right_arm_pose (ev_env ev) = [4; 0; 0]).
Proof.
  split_and!; [reflexivity | vm_compute; reflexivity | vm_compute; reflexivity |].
  intros (ev & Hin & Hs & Hp).
  assert (Hall : Forall (fun ev : @event (world_of path_early) =>
                           ev_strategy ev = 1%nat ->
                           right_arm_pose (ev_env ev) <> [4; 0; 0])
                   (calls (final (run_of path_early)))).
  { vm_compute. repeat constructor; intros; discriminate. }
  rewrite Forall_forall in Hall. exact (Hall ev Hin Hs Hp).
Qed.

End SimRuns.

(** * Collision checker set-up *)

Section MaskFacts.

Lemma mask_testbit_from (opts : list Z) (a : Z) (n : Z) :
  Z.testbit (fold_left Z.lor opts a) n
  = Z.testbit a n || existsb (fun o => Z.testbit o n) opts.
Proof.
  revert a. induction opts as [|o opts IH]; intros a; simpl.
  - by rewrite orb_false_r.
  - by rewrite IH, Z.lor_spec, orb_assoc.
Qed.

(** X1.  A bit is set in the mask exactly when it is set in one of the
    options. *)
Theorem collision_option_mask_bits (opts : list Z) (n : Z) :
  Z.testbit (collision_option_mask opts) n = existsb (fun o => Z.testbit o n) opts.
Proof. unfold collision_option_mask. by rewrite mask_testbit_from, Z.testbit_0_l. Qed.

Lemma collision_option_mask_same_options (opts opts' : list Z) :
  (forall o, In o opts <-> In o opts') ->
  collision_option_mask opts = collision_option_mask opts'.
Proof.
  intros Hsame. apply Z.bits_inj. intros n. rewrite !collision_option_mask_bits.
  apply eq_true_iff_eq. rewrite !existsb_exists.
  split; intros (o & Hin & Hb); exists o; (split; [by apply Hsame | done]).
Qed.

End MaskFacts.

Section CollisionSetupFacts.

Context {W : World} {Checker : Type}.
Variable create : Env W -> string -> Checker.
Variable set_options : Z -> Checker -> Checker.
Variable install : Checker -> Env W -> Env W.

(** X2.  The checker installed depends on which options are listed, not on their
    order or on repetitions. *)
Theorem init_collision_checker_same_options checker (opts opts' : list Z)
    (s : @Motion_planning W) :
  (forall o, In o opts <-> In o opts') ->
  init_collision_checker Checker create set_options install checker opts s
  = init_collision_checker Checker create set_options install checker opts' s.
Proof.
  intros Hsame. unfold init_collision_checker, modify.
  by rewrite (collision_option_mask_same_options opts opts' Hsame).
Qed.

End CollisionSetupFacts.

(** * Step sizing *)

Section StepSize.

Local Open Scope Q_scope.

Lemma half_steps (dis : Q) : dis / step_dis_ratio == dis * 2.
Proof. unfold step_dis_ratio. field. Qed.

(** X3.  The step count keeps the displacement per step at or below 0.5: it is
    3 up to a displacement of 1.5 and beyond that the least count that
    does. *)
Theorem n_steps_of_step_size (dis : Q) :
  (3 <= n_steps_of dis)%Z /\
  dis <= inject_Z (n_steps_of dis) * (1 # 2) /\
  (dis <= 3 # 2 -> n_steps_of dis = 3%Z) /\
  (3 # 2 < dis -> inject_Z (n_steps_of dis - 1) * (1 # 2) < dis).
Proof.
  unfold n_steps_of.
  pose proof (half_steps dis) as Hx.
  pose proof (Qle_ceiling (dis / step_dis_ratio)) as Hle.
  pose proof (Qceiling_lt (dis / step_dis_ratio)) as Hlt.
  set (c := Qceiling (dis / step_dis_ratio)) in *.
  rewrite Hx in Hle, Hlt.
  split_and!.
  - lia.
  - assert (inject_Z c <= inject_Z (Z.max c 3)) by (rewrite <- Zle_Qle; lia). lra.
  - intros Hd. assert (c - 1 < 3)%Z; [|lia].
    rewrite Zlt_Qlt. change (inject_Z 3) with 3. lra.
  - intros Hd. destruct (Z.max_spec c 3) as [[Hc ->]|[Hc ->]].
    + change (inject_Z (3 - 1)) with 2. lra.
    + lra.
Qed.

(** X4.  A longer displacement never gets fewer steps. *)
Theorem n_steps_of_monotone (dis dis' : Q) :
  dis <= dis' -> (n_steps_of dis <= n_steps_of dis')%Z.
Proof.
  intros Hle. unfold n_steps_of. apply Z.max_le_compat_r, Qceiling_resp_le.
  rewrite !half_steps. lra.
Qed.

End StepSize.

(** * The safety validator on concatenations and permutations *)

Section ValidatorMore.

Context {W : World}.

Implicit Types (ts : waypoints) (e : Env W) (idx : list nat) (s : @Motion_planning W).

Lemma existsb_pointwise {A} (f g : A -> bool) (l : list A) :
  (forall x, f x = g x) -> existsb f l = existsb g l.
Proof. intros H. induction l as [|x l IH]; simpl; [done|]. by rewrite H, IH. Qed.

Lemma existsb_pointwise_in {A} (f g : A -> bool) (l : list A) :
  (forall x, x ∈ l -> f x = g x) -> existsb f l = existsb g l.
Proof.
  induction l as [|x l IH]; intros H; simpl; [done|].
  rewrite (H x) by (by left). rewrite IH; [done|]. intros y Hy. apply H. by right.
Qed.

Lemma check_samples_app idx ts ts' e :
  check_samples idx (ts ++ ts') e
  = if fst (check_samples idx ts e)
    then check_samples idx ts' (snd (check_samples idx ts e))
    else check_samples idx ts e.
Proof.
  revert e. induction ts as [|t ts IH]; intros e; simpl; [done|].
  destruct (CheckCollision W (SetDOFValues W t idx e)); [done|]. apply IH.
Qed.

(** X5.  Validating a candidate that continues an unsafe one gives the same
    verdict and leaves the robot at the same pose, whatever follows; a
    candidate judged safe has all its prefixes judged safe. *)
Theorem check_safe_prefix ts ts' s :
  (forall s', check_safe ts s = Ret false s' -> check_safe (ts ++ ts') s = Ret false s') /\
  (forall s', check_safe (ts ++ ts') s = Ret true s' ->
     exists s'', check_safe ts s = Ret true s'').
Proof.
  unfold check_safe, check_safe_env. rewrite check_samples_app.
  set (e0 := SetCollisionOptions W (CO_Contacts W) (env s)).
  destruct (check_samples (GetArmIndices W (plan_arm s)) ts e0) as [[] e1]; simpl.
  - split; [intros s' [=] | intros s' _; eauto].
  - split; [done | intros s' [=]].
Qed.

(** X6.  When posing a sample on the joints of the planned arm overwrites the
    pose set there before it, the verdict is safe exactly when no sample,
    posed on its own, reports contact; so it does not depend on the order of
    the samples.  The overwriting is asked of the arm indices and of the
    samples of the trajectory only. *)
Theorem check_safe_order_independent ts ts' s :
  (forall t t' e, t ∈ ts -> t' ∈ ts ->
     SetDOFValues W t (GetArmIndices W (plan_arm s))
       (SetDOFValues W t' (GetArmIndices W (plan_arm s)) e)
     = SetDOFValues W t (GetArmIndices W (plan_arm s)) e) ->
  Permutation ts ts' ->
  let idx := GetArmIndices W (plan_arm s) in
  let e0 := SetCollisionOptions W (CO_Contacts W) (env s) in
  let b := negb (existsb (fun t => CheckCollision W (SetDOFValues W t idx e0)) ts) in
  exists e1 e2,
    check_safe ts s = Ret b (with_env e1 s) /\
    check_safe ts' s = Ret b (with_env e2 s).
Proof.
  intros Hover Hperm idx e0 b.
  assert (Hchar : forall l e, (forall t, t ∈ l -> t ∈ ts) ->
            fst (check_samples idx l e)
            = negb (existsb (fun t => CheckCollision W (SetDOFValues W t idx e)) l)).
  { intros l. induction l as [|t l IH]; intros e Hsub; simpl; [done|].
    destruct (CheckCollision W (SetDOFValues W t idx e)) eqn:Hc; simpl; [done|].
    rewrite IH by (intros t' Ht'; apply Hsub; by right).
    f_equal. apply existsb_pointwise_in. intros t' Ht'.
    unfold idx. rewrite Hover; [done | apply Hsub; by right | apply Hsub; by left]. }
  assert (Hsame : fst (check_samples idx ts' e0) = b).
  { rewrite Hchar by (intros t Ht; by rewrite Hperm).
    unfold b. f_equal.
    apply eq_true_iff_eq. rewrite !existsb_exists.
    split; intros (t & Hin & Hb); exists t; (split; [|done]).
    - eapply Permutation_in; [symmetry|]; done.
    - by eapply Permutation_in. }
  unfold check_safe, check_safe_env. fold idx e0.
  rewrite Hsame, (Hchar ts e0) by done. fold b. eauto.
Qed.

End ValidatorMore.

(** * What a run changes and how it can fail *)

Section StoreFacts.

Context {W : World}.

Implicit Types (s : @Motion_planning W).

Lemma bind_case {A B} (m : @M W A) (k : A -> @M W B) s :
  bind m k s = match m s with Ret a s' => k a s' | Raise e s' => Raise e s' end.
Proof. reflexivity. Qed.

Lemma bind_modify {B} (f : @Motion_planning W -> @Motion_planning W) (k : unit -> @M W B) s :
  bind (modify f) k s = k tt (f s).
Proof. reflexivity. Qed.

Lemma store_frame_same manip s s' :
  left_arm_DOF s' = left_arm_DOF s -> right_arm_DOF s' = right_arm_DOF s ->
  heap s' = heap s -> store_frame manip s s'.
Proof.
  intros Hl Hr Hh. unfold store_frame, deref. rewrite Hh. by split_and!.
Qed.

Lemma store_frame_trans manip s s1 s2 :
  store_frame manip s s1 -> store_frame manip s1 s2 -> store_frame manip s s2.
Proof.
  intros (Hl1 & Hr1 & Ho1 & Hm1) (Hl2 & Hr2 & Ho2 & Hm2).
  assert (Href : stored_ref manip s1 = stored_ref manip s)
    by (unfold stored_ref; by rewrite Hl1, Hr1).
  rewrite Href in Ho2, Hm2.
  split_and!; [congruence | congruence | |].
  - intros l Hne. by rewrite Ho2, Ho1.
  - intros l Hl. destruct (Hm1 l Hl) as [Hlen1 Htake1], (Hm2 l Hl) as [Hlen2 Htake2].
    rewrite Hlen1 in Htake2. split; congruence.
Qed.

Lemma init_retracted_store s :
  store_frame (plan_arm s) s (final (init_retracted s)) /\
  plan_arm (final (init_retracted s)) = plan_arm s /\
  (forall e, raised (init_retracted s) = Some e -> loop_error (plan_arm s) s e).
Proof.
  assert (Hwrite : forall l x,
            stored_ref (plan_arm s) s = Some l ->
            store_frame (plan_arm s) s
              (with_request (dict_update "init_info"
                               (straight_line (<[pred (length (deref l s)) := x]> (deref l s)))
                               (request s))
                 (with_heap (<[l := <[pred (length (deref l s)) := x]> (deref l s)]> (heap s)) s))).
  { intros l x Hl. unfold store_frame. simpl. split_and!; [done | done | |].
    - intros l' Hne. apply lookup_insert_ne. intros ->. by apply Hne.
    - intros l' Hl'. rewrite Hl in Hl'. injection Hl' as <-.
      match goal with |- context [deref l ?s1] =>
        lazymatch s1 with
        | s => fail
        | _ => assert (Hd : deref l s1 = <[pred (length (deref l s)) := x]> (deref l s))
                 by (unfold deref; simpl; by rewrite lookup_insert_eq)
        end
      end.
      rewrite Hd. split; [apply length_insert | by apply take_insert_ge]. }
  assert (Hsame : store_frame (plan_arm s) s s) by (by apply store_frame_same).
  unfold init_retracted, eval_arm_DOF, set_init_info, bind, get, from_option, modify, ret, raise.
  destruct (last (GetDOFLimits_lower W (env s))) as [limit|];
    [|split_and!; [done | done | intros e [= <-]; by left]].
  destruct (String.eqb (plan_arm s) "left_arm") eqn:El.
  - destruct (left_arm_DOF s) as [l|] eqn:Hl.
    2:{ split_and!; [done | done | intros e [= <-]; right; split; [done|]].
        unfold stored_ref. by rewrite El. }
    destruct (last (deref l s)) as [v|];
      [|split_and!; [done | done | intros e [= <-]; by left]].
    split_and!; [apply Hwrite; unfold stored_ref; by rewrite El | done | done].
  - destruct (String.eqb (plan_arm s) "right_arm") eqn:Er.
    + destruct (right_arm_DOF s) as [l|] eqn:Hl.
      2:{ split_and!; [done | done | intros e [= <-]; right; split; [done|]].
          unfold stored_ref. by rewrite El, Er. }
      destruct (last (deref l s)) as [v|];
        [|split_and!; [done | done | intros e [= <-]; by left]].
      split_and!; [apply Hwrite; unfold stored_ref; by rewrite El, Er | done | done].
    + split_and!; [done | done | intros e [= <-]; right; split; [done|]].
      unfold stored_ref. by rewrite El, Er.
Qed.

Lemma choose_init_info_store manip j s :
  plan_arm s = manip ->
  store_frame manip s (final (choose_init_info j s)) /\
  plan_arm (final (choose_init_info j s)) = manip /\
  (forall e, raised (choose_init_info j s) = Some e -> loop_error manip s e).
Proof.
  intros Hplan.
  destruct (decide (j = 1%nat)) as [->|Hj].
  2:{ destruct j as [|[|[|j]]]; try done; (split_and!; [by apply store_frame_same | done | done]). }
  unfold choose_init_info. rewrite bind_modify. cbn [Nat.eqb]. cbv beta iota.
  set (s0 := with_request _ s).
  destruct (init_retracted_store s0) as (Hf & Hp & He).
  change (plan_arm s0) with (plan_arm s) in Hf, Hp, He. rewrite Hplan in Hf, Hp, He.
  split_and!; [|done|].
  - eapply store_frame_trans; [|exact Hf]. by apply store_frame_same.
  - intros e Hr. destruct (He e Hr) as [->|[-> Hn]]; [by left | by right].
Qed.

Lemma attempt_store manip i j s :
  plan_arm s = manip ->
  store_frame manip s (final (attempt i j s)) /\
  plan_arm (final (attempt i j s)) = manip /\
  (forall e, raised (attempt i j s) = Some e -> loop_error manip s e).
Proof.
  intros Hplan. destruct (choose_init_info_store manip j s Hplan) as (Hf & Hp & He).
  unfold attempt. rewrite bind_case.
  destruct (choose_init_info j s) as [[] s1|e s1]; [|simpl in *; by split_and!].
  unfold bind, get, modify, check_safe, ret; simpl in *.
  split_and!; [|done|done].
  eapply store_frame_trans; [exact Hf|]. by apply store_frame_same.
Qed.

Lemma loop_error_frame manip s s' e :
  store_frame manip s s' -> loop_error manip s' e -> loop_error manip s e.
Proof.
  intros (Hl & Hr & _) [->|[-> Hn]]; [by left|right]. split; [done|].
  unfold stored_ref in *. by rewrite <- Hl, <- Hr.
Qed.

Lemma attempts_store manip i js res s :
  plan_arm s = manip ->
  store_frame manip s (final (attempts i js res s)) /\
  plan_arm (final (attempts i js res s)) = manip /\
  (forall e, raised (attempts i js res s) = Some e ->
     e = NoSafePath \/ loop_error manip s e).
Proof.
  revert res s. induction js as [|j js IH]; intros res s Hplan.
  - simpl. split_and!; [by apply store_frame_same | done | done].
  - destruct (attempt_store manip i j s Hplan) as (Hf & Hp & He).
    cbn [attempts]. rewrite bind_case.
    destruct (attempt i j s) as [r s1|e s1]; simpl in Hf, Hp, He.
    2:{ simpl. split_and!; [done | done | intros e' [= <-]; right; by apply He]. }
    destruct (snd r); [simpl; by split_and!|].
    destruct (Nat.eqb j 2).
    + simpl. split_and!; [done | done | intros e [= <-]; by left].
    + destruct (IH (Some (fst r)) s1 Hp) as (Hf' & Hp' & He').
      split_and!; [exact (store_frame_trans _ _ _ _ Hf Hf') | done |].
      intros e Hr. destruct (He' e Hr) as [->|Hle]; [by left|right].
      exact (loop_error_frame _ _ _ _ Hf Hle).
Qed.

(** [result] is bound whenever the [for j] loop is left without an
    exception. *)
Lemma attempts_binds i js res s s' :
  attempts i js res s = Ret None s' -> js = [] /\ res = None.
Proof.
  revert res s. induction js as [|j js IH]; intros res s; simpl.
  - by intros [= -> _].
  - unfold bind. destruct (attempt i j s) as [r s1|e s1]; [|done].
    destruct (snd r); [done|]. destruct (Nat.eqb j 2); [done|].
    intros H. by destruct (IH _ _ H).
Qed.

Lemma refine_segment_case manip trajectory i s :
  refine_segment manip trajectory i s =
  match trajectory !! (i + 1)%nat, trajectory !! i with
  | Some w1, Some w0 =>
      let n := n_steps_of (displacement W w0 w1) in
      let s0 := with_env (SetDOFValues W w0 (GetArmIndices W manip) (env s))
                  (final (set_request manip w1 n s)) in
      match attempts i [0; 1; 2]%nat None s0 with
      | Ret (Some r) s1 => Ret tt (with_traj (traj s1 ++ r) s1)
      | Ret None s1 => Raise NameError s1
      | Raise e s1 => Raise e s1
      end
  | _, _ => Raise IndexError s
  end.
Proof.
  unfold refine_segment, from_option.
  destruct (trajectory !! (i + 1)%nat) as [w1|]; [|done].
  destruct (trajectory !! i) as [w0|]; [|done].
  unfold bind, ret, raise, set_request, modify, final, displacement. cbv beta iota zeta.
  destruct (attempts i [0; 1; 2]%nat None _) as [[r|] s1|e s1]; reflexivity.
Qed.

Lemma refine_segment_store manip trajectory i s :
  store_frame manip s (final (refine_segment manip trajectory i s)) /\
  (raised (refine_segment manip trajectory i s) = None ->
     plan_arm (final (refine_segment manip trajectory i s)) = manip) /\
  (forall e, raised (refine_segment manip trajectory i s) = Some e ->
     e = NoSafePath \/ loop_error manip s e).
Proof.
  assert (Hsame : store_frame manip s s) by (by apply store_frame_same).
  rewrite refine_segment_case.
  destruct (trajectory !! (i + 1)%nat) as [w1|];
    [|split_and!; [done | done | intros e [= <-]; right; by left]].
  destruct (trajectory !! i) as [w0|];
    [|split_and!; [done | done | intros e [= <-]; right; by left]].
  cbv zeta. set (s0 := with_env _ _).
  assert (Hf0 : store_frame manip s s0) by (by apply store_frame_same).
  destruct (attempts_store manip i [0; 1; 2]%nat None s0 eq_refl) as (Hf & Hp & He).
  destruct (attempts i [0; 1; 2]%nat None s0) as [[r|] s1|e s1] eqn:Hrun;
    simpl in Hf, Hp, He; simpl.
  - split_and!; [|done|done]. eapply store_frame_trans; [exact Hf0|].
    eapply store_frame_trans; [exact Hf|]. by apply store_frame_same.
  - by destruct (attempts_binds _ _ _ _ _ Hrun) as [[=] _].
  - split_and!; [exact (store_frame_trans _ _ _ _ Hf0 Hf) | done |].
    intros e' [= <-]. destruct (He e eq_refl) as [->|Hle]; [by left|right].
    exact (loop_error_frame _ _ _ _ Hf0 Hle).
Qed.

Lemma segments_store manip trajectory ixs s :
  store_frame manip s (final (segments manip trajectory ixs s)) /\
  (raised (segments manip trajectory ixs s) = None -> ixs <> [] ->
     plan_arm (final (segments manip trajectory ixs s)) = manip) /\
  (forall e, raised (segments manip trajectory ixs s) = Some e ->
     e = NoSafePath \/ loop_error manip s e).
Proof.
  revert s. induction ixs as [|i ixs IH]; intros s.
  - simpl. split_and!; [by apply store_frame_same | done | done].
  - destruct (refine_segment_store manip trajectory i s) as (Hf & Hp & He).
    cbn [segments]. rewrite bind_case.
    destruct (refine_segment manip trajectory i s) as [[] s1|e s1]; simpl in *; [|done].
    destruct (IH s1) as (Hf' & Hp' & He').
    split_and!; [exact (store_frame_trans _ _ _ _ Hf Hf') | |].
    + intros Hr _. destruct ixs as [|i' ixs]; [by apply Hp|]. by apply Hp'.
    + intros e Hr. destruct (He' e Hr) as [->|Hle]; [by left|right].
      exact (loop_error_frame _ _ _ _ Hf Hle).
Qed.

End StoreFacts.

(** * Storing an arm configuration and planning the coarse path *)

Section SetManip.

Context {W : World}.

Implicit Types (s : @Motion_planning W).

(** X7.  [set_manip] fails exactly for a name other than the two arms, with the
    assertion error and without touching the object. *)
Theorem set_manip_names name DOF s :
  (name = "left_arm" \/ name = "right_arm" <-> exists s', set_manip name DOF s = Ret tt s') /\
  (name <> "left_arm" /\ name <> "right_arm" <-> set_manip name DOF s = Raise AssertionError s).
Proof.
  unfold set_manip, get_manip, bind, modify, from_option, ret, raise.
  destruct (String.eqb_spec name "left_arm") as [->|Hl]; simpl.
  - split; [split; [intros _; eauto | intros _; by left]
           | split; [intros [? _]; done | intros [=]]].
  - destruct (String.eqb_spec name "right_arm") as [->|Hr]; simpl.
    + split; [split; [intros _; eauto | intros _; by right]
             | split; [intros [_ ?]; done | intros [=]]].
    + split; [split; [intros [?|?]; done | intros [? [=]]]
             | split; [done | done]].
Qed.

(** X8.  After [set_manip] for an arm, the attribute of that arm holds the very
    list it was given, the other attribute and the store are as before, and
    the robot's arm joints are set to the contents of the list. *)
Theorem set_manip_stores_reference name DOF s :
  name = "left_arm" \/ name = "right_arm" ->
  exists s', set_manip name DOF s = Ret tt s' /\
    eval_arm_DOF name s' = Ret DOF s' /\
    heap s' = heap s /\
    env s' = SetDOFValues W (deref DOF s) (GetArmIndices W name) (env s) /\
    (forall other, other <> name -> stored_ref other s' = stored_ref other s).
Proof.
  intros [-> | ->]; eexists; (split; [reflexivity|]); simpl;
    (split_and!; [reflexivity | reflexivity | reflexivity |]);
    intros other Hne; unfold stored_ref; simpl.
  - destruct (String.eqb_spec other "left_arm"); [done|reflexivity].
  - destruct (String.eqb_spec other "right_arm") as [->|]; [done|reflexivity].
Qed.

(** X9.  When both attributes hold the same list, the retraction made for the
    planned arm is seen through the attribute of the other arm as well. *)
Theorem retraction_through_shared_list s l limit vs v :
  left_arm_DOF s = Some l -> right_arm_DOF s = Some l ->
  plan_arm s = "left_arm" \/ plan_arm s = "right_arm" ->
  last (GetDOFLimits_lower W (env s)) = Some limit ->
  deref l s = vs ++ [v] ->
  exists s', choose_init_info 1 s = Ret tt s' /\
    eval_arm_DOF "left_arm" s' = Ret l s' /\
    eval_arm_DOF "right_arm" s' = Ret l s' /\
    deref l s' = vs ++ [py_max limit (v - 5)].
Proof.
  intros Hleft Hright Hplan Hlim Hv.
  assert (Href : stored_ref (plan_arm s) s = Some l).
  { unfold stored_ref. destruct Hplan as [-> | ->]; simpl; done. }
  eexists. split; [by apply choose_retracted|].
  unfold eval_arm_DOF, bind, get, from_option, ret, deref; simpl.
  rewrite Hleft, Hright, lookup_insert_eq. done.
Qed.

End SetManip.

Section InitTraj.

Context {W : World}.

Implicit Types (s : @Motion_planning W).

Local Ltac init_traj_case :=
  repeat split;
  first [ done
        | by (intros; eauto)
        | by intros [?|?]
        | by (intros (? & ? & ?); congruence)
        | by (intros ? [= <-]; eauto) ].

(** X10.  [__init_traj] raises the attribute error exactly when the arm name is
    unknown or the right arm was never given a configuration, whichever arm
    is planned; it raises the index error exactly when, these being in
    order, the list of goals is empty; its other failures are assertion
    errors.  Whatever the outcome, it changes nothing of the object but the
    environment. *)
Theorem init_traj_errors manip jt alg s :
  (raised (init_traj manip jt alg s) = Some AttributeError
     <-> get_manip manip = None \/ right_arm_DOF s = None) /\
  (raised (init_traj manip jt alg s) = Some IndexError
     <-> get_manip manip <> None /\ right_arm_DOF s <> None /\ jt = []) /\
  (forall e, raised (init_traj manip jt alg s) = Some e ->
     e = AttributeError \/ e = IndexError \/ e = AssertionError) /\
  traj (final (init_traj manip jt alg s)) = traj s /\
  heap (final (init_traj manip jt alg s)) = heap s /\
  calls (final (init_traj manip jt alg s)) = calls s /\
  request (final (init_traj manip jt alg s)) = request s /\
  plan_arm (final (init_traj manip jt alg s)) = plan_arm s /\
  left_arm_DOF (final (init_traj manip jt alg s)) = left_arm_DOF s /\
  right_arm_DOF (final (init_traj manip jt alg s)) = right_arm_DOF s.
Proof.
  unfold init_traj, bind, from_option, modify, get, ret, raise.
  destruct (get_manip manip) as [arm|]; simpl; [|init_traj_case].
  destruct (right_arm_DOF s) as [dof|] eqn:Hright; simpl; [|init_traj_case].
  destruct jt as [|goal jt]; simpl; [init_traj_case|].
  destruct (PlanPath W _ _ _) as [planned|]; simpl; [|init_traj_case].
  destruct (SimplifyPath W _ _) as [path|]; simpl; init_traj_case.
Qed.

(** X11.  A path returned by [__init_traj] is the simplified path of the planner
    run to the first goal of the list, with the active joints of the planned
    arm set to the stored configuration of the right arm; the environment is
    left with these settings. *)
Theorem init_traj_plan manip jt alg s path s' :
  init_traj manip jt alg s = Ret path s' ->
  exists arm dof goal planned,
    get_manip manip = Some arm /\ right_arm_DOF s = Some dof /\ head jt = Some goal /\
    let e := SetActiveManipulator W arm
               (SetActiveDOFValues W (deref dof s)
                  (SetActiveDOFs W (GetArmIndices W arm) (env s))) in
    PlanPath W (String.append "OMPL_" alg) e goal = Some planned /\
    SimplifyPath W e planned = Some path /\
    s' = with_env e s.
Proof.
  unfold init_traj, bind, from_option, modify, get, ret, raise.
  destruct (get_manip manip) as [arm|]; simpl; [|done].
  destruct (right_arm_DOF s) as [dof|]; simpl; [|done].
  destruct jt as [|goal jt]; simpl; [done|].
  destruct (PlanPath W _ _ _) as [planned|] eqn:Hplan; simpl; [|done].
  destruct (SimplifyPath W _ _) as [p|] eqn:Hsimp; simpl; [|done].
  intros [= <- <-]. by exists arm, dof, goal, planned.
Qed.

End InitTraj.

Section OptimizeFacts.

Context {W : World}.

Implicit Types (s : @Motion_planning W) (evs g : list (@event W)) (ixs : list nat).

Lemma optimize_case manip jt alg s :
  optimize manip jt alg s =
  match init_traj manip jt alg s with
  | Ret trajectory s0 =>
      segments manip trajectory (seq 0 (length trajectory - 1)) (with_traj [] s0)
  | Raise e s0 => Raise e s0
  end.
Proof. reflexivity. Qed.

(** X12.  [optimize] never rebinds the two arm attributes; it leaves every list
    object alone except the one stored for the planned arm, and of that one
    it keeps the length and every entry but the last. *)
Theorem optimize_keeps_store manip jt alg s :
  left_arm_DOF (final (optimize manip jt alg s)) = left_arm_DOF s /\
  right_arm_DOF (final (optimize manip jt alg s)) = right_arm_DOF s /\
  (forall l, stored_ref manip s <> Some l ->
     heap (final (optimize manip jt alg s)) !! l = heap s !! l) /\
  (forall l, stored_ref manip s = Some l ->
     length (deref l (final (optimize manip jt alg s))) = length (deref l s) /\
     take (pred (length (deref l s))) (deref l (final (optimize manip jt alg s)))
       = take (pred (length (deref l s))) (deref l s)).
Proof.
  change (store_frame manip s (final (optimize manip jt alg s))).
  destruct (init_traj_errors manip jt alg s)
    as (_ & _ & _ & _ & Hheap & _ & _ & _ & Hleft & Hright).
  rewrite optimize_case.
  destruct (init_traj manip jt alg s) as [trajectory s0|e s0]; simpl in *.
  - eapply store_frame_trans; [|apply segments_store]. by apply store_frame_same.
  - by apply store_frame_same.
Qed.

(** X13.  [optimize] never fails for an unbound [result]; it raises the attribute
    error only when the arm name is unknown, when the right arm was never
    given a configuration, or when the planned arm was not. *)
Theorem optimize_errors manip jt alg s e :
  raised (optimize manip jt alg s) = Some e ->
  e <> NameError /\
  (e = AttributeError ->
     get_manip manip = None \/ right_arm_DOF s = None \/ stored_ref manip s = None).
Proof.
  destruct (init_traj_errors manip jt alg s)
    as (Hattr & _ & Hkind & _ & Hheap & _ & _ & _ & Hleft & Hright).
  rewrite optimize_case.
  destruct (init_traj manip jt alg s) as [trajectory s0|e0 s0]; simpl in *.
  - intros Hr.
    destruct (segments_store manip trajectory (seq 0 (length trajectory - 1)) (with_traj [] s0))
      as (_ & _ & He).
    destruct (He e Hr) as [-> | [-> | [-> Hn]]]; [done | done |].
    split; [done|]. intros _. right. right.
    unfold stored_ref in *. simpl in Hn. by rewrite <- Hleft, <- Hright.
  - intros [= <-]. split.
    + destruct (Hkind e0 eq_refl) as [-> | [-> | ->]]; done.
    + intros ->. destruct (proj1 Hattr eq_refl) as [?|?]; eauto.
Qed.

(** X14.  The playback that follows a completed [optimize] poses the samples of
    [traj] in order on the joints of the arm that was planned, and changes
    nothing else. *)
Theorem playback_after_optimize manip jt alg s s' :
  optimize manip jt alg s = Ret tt s' ->
  plan_and_play manip jt alg s
    = Ret tt (with_env (pose_after (GetArmIndices W manip) (traj s') (env s')) s').
Proof.
  intros Hopt. unfold plan_and_play. rewrite bind_case, Hopt.
  unfold simulate, modify. f_equal. f_equal.
  rewrite optimize_case in Hopt.
  destruct (init_traj manip jt alg s) as [trajectory s0|e0 s0]; [|done].
  destruct (segments_store manip trajectory (seq 0 (length trajectory - 1)) (with_traj [] s0))
    as (_ & Hp & _).
  rewrite Hopt in Hp. simpl in Hp.
  destruct (seq 0 (length trajectory - 1)) as [|i ixs] eqn:Hseq.
  - simpl in Hopt. injection Hopt as <-. reflexivity.
  - by rewrite Hp.
Qed.

(** X15.  When the coarse planning fails, [optimize] fails with the same
    exception before anything else: the optimizer is not called, the store
    is as it was, and [traj] still holds what it held before the call. *)
Theorem optimize_without_plan manip jt alg s e :
  raised (init_traj manip jt alg s) = Some e ->
  raised (optimize manip jt alg s) = Some e /\
  traj (final (optimize manip jt alg s)) = traj s /\
  calls (final (optimize manip jt alg s)) = calls s /\
  heap (final (optimize manip jt alg s)) = heap s.
Proof.
  destruct (init_traj_errors manip jt alg s)
    as (_ & _ & _ & Htraj & Hheap & Hcalls & _).
  rewrite optimize_case.
  destruct (init_traj manip jt alg s) as [trajectory s0|e0 s0]; simpl in *; [done|].
  by intros [= <-].
Qed.

(** X16.  A coarse path of fewer than two waypoints has no segment: [optimize]
    completes without calling the optimizer and [traj] is empty. *)
Theorem optimize_short_path manip jt alg s trajectory s0 :
  init_traj manip jt alg s = Ret trajectory s0 ->
  (length trajectory <= 1)%nat ->
  optimize manip jt alg s = Ret tt (with_traj [] s0).
Proof.
  intros Hinit Hlen. rewrite optimize_case, Hinit.
  by replace (length trajectory - 1)%nat with 0%nat by lia.
Qed.

Lemma run_log_count manip trajectory ixs evs out res :
  run_log manip trajectory ixs evs out res ->
  (length evs <= 3 * length ixs)%nat /\
  (res = None -> length ixs <= length evs)%nat.
Proof.
  revert evs out. induction ixs as [|i ixs IH]; intros evs out; simpl.
  - intros (-> & _). simpl. lia.
  - intros (w0 & w1 & e & g & rest & _ & _ & Hlog & -> & Hcase).
    pose proof (sl_length _ _ _ _ _ _ Hlog) as Hg. rewrite length_app.
    destruct Hcase as [(ev & out' & _ & _ & _ & Hr)|(-> & _ & _ & x & -> & _)].
    + destruct (IH _ _ Hr) as [Hup Hlow]. split; [lia|]. intros Hn. specialize (Hlow Hn). lia.
    + simpl. split; [lia|done].
Qed.

(** X17.  The optimizer is called at most three times per segment, and at least
    once per segment when [optimize] completes. *)
Theorem optimize_call_count manip jt alg s trajectory s0 evs :
  init_traj manip jt alg s = Ret trajectory s0 ->
  calls (final (optimize manip jt alg s)) = calls s ++ evs ->
  (length evs <= 3 * (length trajectory - 1))%nat /\
  (raised (optimize manip jt alg s) = None -> length trajectory - 1 <= length evs)%nat.
Proof.
  intros Hinit Hcalls.
  pose proof (optimize_log _ _ _ _ _ _ _ Hinit Hcalls) as Hrun.
  apply run_log_count in Hrun. by rewrite length_seq in Hrun.
Qed.

Lemma run_log_no_safe_path manip trajectory ixs evs out :
  run_log manip trajectory ixs evs out (Some NoSafePath) ->
  exists pre e0 e1 e2,
    evs = pre ++ [e0; e1; e2] /\
    map ev_strategy [e0; e1; e2] = [0; 1; 2]%nat /\
    ev_segment e1 = ev_segment e0 /\ ev_segment e2 = ev_segment e0 /\
    map (judged_safe manip) [e0; e1; e2] = [false; false; false].
Proof.
  revert evs out. induction ixs as [|i ixs IH]; intros evs out; simpl.
  - by intros (_ & _ & [=]).
  - intros (w0 & w1 & e & g & rest & _ & _ & Hlog & -> & Hcase).
    destruct Hcase as [(ev & out' & _ & _ & _ & Hr)|(-> & _ & Hlast & x & [= <-] & Hx)].
    + destruct (IH _ _ Hr) as (pre & e0 & e1 & e2 & -> & H).
      exists (g ++ pre), e0, e1, e2. by rewrite <- app_assoc.
    + pose proof (proj1 Hx eq_refl) as Hlen.
      destruct g as [|e0 [|e1 [|e2 [|? ?]]]]; try done.
      exists [], e0, e1, e2. rewrite app_nil_r.
      pose proof (sl_segment _ _ _ _ _ _ Hlog) as Hseg.
      apply Forall_cons in Hseg as [H0 Hseg]. apply Forall_cons in Hseg as [H1 Hseg].
      apply Forall_cons in Hseg as [H2 _].
      destruct (sl_next _ _ _ _ _ _ Hlog 0%nat e0 e1 eq_refl eq_refl) as [Hu0 _].
      destruct (sl_next _ _ _ _ _ _ Hlog 1%nat e1 e2 eq_refl eq_refl) as [Hu1 _].
      pose proof (Hlast e2 eq_refl) as Hu2.
      split_and!; [done | exact (sl_strategy _ _ _ _ _ _ Hlog) | congruence | congruence |].
      simpl. by rewrite Hu0, Hu1, Hu2.
Qed.

(** X18.  ['No path is safe'] is raised only after the three strategies of one
    segment have all been tried and judged unsafe: they are the last three
    calls of the run. *)
Theorem no_safe_path_after_three manip jt alg s s' evs :
  optimize manip jt alg s = Raise NoSafePath s' ->
  calls s' = calls s ++ evs ->
  exists pre e0 e1 e2,
    evs = pre ++ [e0; e1; e2] /\
    map ev_strategy [e0; e1; e2] = [0; 1; 2]%nat /\
    ev_segment e1 = ev_segment e0 /\ ev_segment e2 = ev_segment e0 /\
    map (judged_safe manip) [e0; e1; e2] = [false; false; false].
Proof.
  intros Hopt Hcalls.
  destruct (init_traj manip jt alg s) as [trajectory s0|e s0] eqn:Hinit.
  - pose proof (optimize_log manip jt alg s trajectory s0 evs Hinit) as Hrun.
    rewrite Hopt in Hrun. simpl in Hrun. by eapply run_log_no_safe_path, Hrun.
  - rewrite (optimize_no_plan _ _ _ _ _ _ Hinit) in Hopt. injection Hopt as He Hs. subst e s0.
    destruct (init_traj_errors manip jt alg s) as (_ & _ & Hkind & _).
    rewrite Hinit in Hkind. by destruct (Hkind _ eq_refl) as [?|[?|?]].
Qed.

Lemma run_log_first_safe manip trajectory ixs evs out res :
  run_log manip trajectory ixs evs out res ->
  (forall ev, ev ∈ evs -> ev_strategy ev = 0%nat -> judged_safe manip ev = true) ->
  res = None /\ length evs = length ixs /\ Forall (fun ev => ev_strategy ev = 0%nat) evs.
Proof.
  revert evs out. induction ixs as [|i ixs IH]; intros evs out; simpl.
  - by intros (-> & _ & ->) _.
  - intros (w0 & w1 & e & g & rest & _ & _ & Hlog & -> & Hcase) Hsafe.
    pose proof (sl_length _ _ _ _ _ _ Hlog) as Hlen.
    pose proof (sl_strategy _ _ _ _ _ _ Hlog) as Hstrat.
    destruct g as [|e0 g]; [simpl in Hlen; lia|].
    injection Hstrat as Hs0 _.
    assert (H0 : judged_safe manip e0 = true).
    { apply Hsafe; [|done]. apply elem_of_app. left. left. }
    destruct g as [|e1 g].
    2:{ destruct (sl_next _ _ _ _ _ _ Hlog 0%nat e0 e1 eq_refl eq_refl) as [Hu _]. congruence. }
    destruct Hcase as [(ev & out' & _ & _ & _ & Hr)|(_ & _ & Hlast & _)].
    + destruct (IH _ _ Hr) as (-> & Hl & Hall).
      { intros ev' Hin. apply Hsafe. apply elem_of_app. by right. }
      split_and!; [done | simpl; by rewrite Hl | by constructor].
    + specialize (Hlast e0 eq_refl). congruence.
Qed.

(** X19.  When the candidate of the first strategy is judged safe wherever it is
    tried, [optimize] completes, with one call per segment and no other
    strategy. *)
Theorem optimize_first_strategy_suffices manip jt alg s trajectory s0 evs :
  init_traj manip jt alg s = Ret trajectory s0 ->
  calls (final (optimize manip jt alg s)) = calls s ++ evs ->
  (forall ev, ev ∈ evs -> ev_strategy ev = 0%nat -> judged_safe manip ev = true) ->
  raised (optimize manip jt alg s) = None /\
  length evs = (length trajectory - 1)%nat /\
  Forall (fun ev => ev_strategy ev = 0%nat) evs.
Proof.
  intros Hinit Hcalls Hsafe.
  pose proof (optimize_log _ _ _ _ _ _ _ Hinit Hcalls) as Hrun.
  destruct (run_log_first_safe _ _ _ _ _ _ Hrun Hsafe) as (Hres & Hlen & Hall).
  by rewrite length_seq in Hlen.
Qed.

End OptimizeFacts.

Section RetractionMore.

Context {W : World}.

Implicit Types (s : @Motion_planning W).

(** X20.  How the branch [j == 1] fails: with the index error when the array of
    joint limits is empty, else with the attribute error when the planned
    arm was never given a configuration, else with the index error when the
    stored list is empty.  In each case no list object is written and the
    request is left without [init_info]. *)
Theorem retraction_failures s :
  (last (GetDOFLimits_lower W (env s)) = None ->
     choose_init_info 1 s
       = Raise IndexError (with_request (dict_del "init_info" (request s)) s)) /\
  (forall limit, last (GetDOFLimits_lower W (env s)) = Some limit ->
     stored_ref (plan_arm s) s = None ->
     choose_init_info 1 s
       = Raise AttributeError (with_request (dict_del "init_info" (request s)) s)) /\
  (forall limit l, last (GetDOFLimits_lower W (env s)) = Some limit ->
     stored_ref (plan_arm s) s = Some l -> deref l s = [] ->
     choose_init_info 1 s
       = Raise IndexError (with_request (dict_del "init_info" (request s)) s)).
Proof.
  unfold choose_init_info, init_retracted, eval_arm_DOF, set_init_info, bind, get,
    from_option, modify, ret, raise.
  cbn [Nat.eqb]. cbv beta iota.
  change (env (with_request (dict_del "init_info" (request s)) s)) with (env s).
  change (plan_arm (with_request (dict_del "init_info" (request s)) s)) with (plan_arm s).
  change (left_arm_DOF (with_request (dict_del "init_info" (request s)) s))
    with (left_arm_DOF s).
  change (right_arm_DOF (with_request (dict_del "init_info" (request s)) s))
    with (right_arm_DOF s).
  unfold stored_ref, deref.
  split_and!.
  - by intros ->.
  - intros limit -> Href. simpl.
    destruct (String.eqb (plan_arm s) "left_arm");
      [|destruct (String.eqb (plan_arm s) "right_arm"); [|done]];
      by rewrite Href.
  - intros limit l -> Href Hempty. simpl.
    destruct (String.eqb (plan_arm s) "left_arm");
      [|destruct (String.eqb (plan_arm s) "right_arm"); [|done]];
      rewrite Href; simpl; by rewrite Hempty.
Qed.

Lemma qmax_step (limit a k : Q) :
  (0 <= k -> Qmax limit (Qmax limit a - k) == Qmax limit (a - k))%Q.
Proof.
  intros Hk.
  destruct (Q.max_spec limit a) as [[H1 E1]|[H1 E1]];
  destruct (Q.max_spec limit (Qmax limit a - k)) as [[H2 E2]|[H2 E2]];
  destruct (Q.max_spec limit (a - k)) as [[H3 E3]|[H3 E3]];
  rewrite E2, E3; lra.
Qed.

(** X21.  Passing [n + 1] times through the branch [j == 1], the store not being
    touched otherwise, leaves the last entry at [max(limit, v - 5 (n + 1))]:
    the retractions add up until the limit is reached and stay there. *)
Theorem retraction_repeated s limit l vs v n :
  last (GetDOFLimits_lower W (env s)) = Some limit ->
  stored_ref (plan_arm s) s = Some l ->
  deref l s = vs ++ [v] ->
  exists x,
    deref l (Nat.iter (S n) (fun s => final (choose_init_info 1 s)) s) = vs ++ [x] /\
    (x == Qmax limit (v - 5 * inject_Z (Z.of_nat (S n))))%Q.
Proof.
  revert s v. induction n as [|n IH]; intros s v Hlim Href Hv.
  - exists (py_max limit (v - 5)). simpl Nat.iter.
    rewrite (choose_retracted s limit l vs v Hlim Href Hv). split.
    + unfold deref. simpl. by rewrite lookup_insert_eq.
    + destruct (py_max_spec limit (v - 5)) as (-> & _). apply Q.max_compat; [reflexivity|].
      change (inject_Z (Z.of_nat 1)) with 1%Q. lra.
  - rewrite Nat.iter_succ_r.
    pose proof (choose_retracted s limit l vs v Hlim Href Hv) as Hstep.
    set (s1 := final (choose_init_info 1 s)).
    assert (Hs1 : s1 = with_request
              (dict_update "init_info" (straight_line (vs ++ [py_max limit (v - 5)]))
                 (dict_del "init_info" (request s)))
              (with_heap (<[ l := vs ++ [py_max limit (v - 5)] ]> (heap s))
                 (with_request (dict_del "init_info" (request s)) s)))
      by (unfold s1; by rewrite Hstep).
    destruct (IH s1 (py_max limit (v - 5))) as (x & Hx & Heq).
    + by rewrite Hs1.
    + by rewrite Hs1.
    + rewrite Hs1. unfold deref. simpl. by rewrite lookup_insert_eq.
    + exists x. split; [exact Hx|]. rewrite Heq.
      destruct (py_max_spec limit (v - 5)) as (-> & _).
      rewrite qmax_step.
      * apply Q.max_compat; [reflexivity|].
        rewrite !Nat2Z.inj_succ. unfold Z.succ. rewrite !inject_Z_plus.
        change (inject_Z 1) with 1%Q. ring.
      * rewrite Nat2Z.inj_succ. unfold Z.succ. rewrite inject_Z_plus.
        change (inject_Z 1) with 1%Q.
        assert (0 <= inject_Z (Z.of_nat n))%Q by (rewrite <- (Zle_Qle 0); lia). lra.
Qed.

End RetractionMore.

(** * The escalation policy *)

Section PolicyFacts.

Context {W : World}.

Implicit Types (s : @Motion_planning W) (g evs : list (@event W)) (ixs : list nat).



End PolicyFacts.

Section PolicySegment.

Context {W : World}.

Implicit Types (s : @Motion_planning W) (g evs : list (@event W)) (ixs : list nat).





End PolicySegment.

Section EscalationOrder.

Context {W : World}.

Implicit Types (s : @Motion_planning W) (g evs : list (@event W)) (ixs : list nat).





End EscalationOrder.

(** * The further properties on concrete runs *)

Section MoreRuns.

Import Sim.

Local Open Scope Q_scope.

Lemma init_collision_checker_same_options_witness :
  (forall o, In o [4; 1]%Z <-> In o [1; 4; 4]%Z) /\
  @init_collision_checker (world_of path_ok) Z (fun _ _ => 0%Z) (fun j _ => j)
    Stub.install_options "pqp" [4; 1]%Z (start_of path_ok)
  = @init_collision_checker (world_of path_ok) Z (fun _ _ => 0%Z) (fun j _ => j)
    Stub.install_options "pqp" [1; 4; 4]%Z (start_of path_ok).
Proof.
  assert (Hsame : forall o, In o [4; 1]%Z <-> In o [1; 4; 4]%Z) by (simpl; tauto).
  split; [exact Hsame|].
  exact (@init_collision_checker_same_options (world_of path_ok) Z (fun _ _ => 0%Z)
           (fun j _ => j) Stub.install_options "pqp" [4; 1]%Z [1; 4; 4]%Z
           (start_of path_ok) Hsame).
Defined.

Lemma n_steps_of_monotone_witness :
  3 # 10 <= 17 # 10 /\ (n_steps_of (3 # 10) <= n_steps_of (17 # 10))%Z.
Proof.
  assert (H : 3 # 10 <= 17 # 10) by (vm_compute; discriminate).
  exact (conj H (n_steps_of_monotone (3 # 10) (17 # 10) H)).
Defined.

Lemma check_safe_order_independent_witness :
  Permutation [[1; 0; 0]; [6; 0; 0]] [[6; 0; 0]; [1; 0; 0]] /\
  exists e1 e2,
    check_safe [[1; 0; 0]; [6; 0; 0]] Stub.pose_object = Ret false (with_env e1 Stub.pose_object) /\
    check_safe [[6; 0; 0]; [1; 0; 0]] Stub.pose_object = Ret false (with_env e2 Stub.pose_object).
Proof.
  assert (Hperm : Permutation [[1; 0; 0]; [6; 0; 0]] [[6; 0; 0]; [1; 0; 0]])
    by apply perm_swap.
  split; [exact Hperm|].
  exact (@check_safe_order_independent Stub.pose_world [[1; 0; 0]; [6; 0; 0]]
           [[6; 0; 0]; [1; 0; 0]] Stub.pose_object (fun _ _ _ _ _ => eq_refl) Hperm).
Defined.

Lemma set_manip_stores_reference_witness :
  exists s', set_manip "right_arm" 1%nat (fresh (world_of path_ok) rest [1; 1; 1] [0; 0; 9])
               = Ret tt s' /\
    eval_arm_DOF "right_arm" s' = Ret 1%nat s' /\
    heap s' = heap (fresh (world_of path_ok) rest [1; 1; 1] [0; 0; 9]) /\
    env s' = SetDOFValues (world_of path_ok) [0; 0; 9] [3; 4; 5]%nat rest.
Proof.
  destruct (@set_manip_stores_reference (world_of path_ok) "right_arm" 1%nat
              (fresh (world_of path_ok) rest [1; 1; 1] [0; 0; 9]) (or_intror eq_refl))
    as (s' & H1 & H2 & H3 & H4 & _).
  exists s'. exact (conj H1 (conj H2 (conj H3 H4))).
Defined.

Lemma retraction_through_shared_list_witness :
  exists s', choose_init_info 1 Stub.shared = Ret tt s' /\
    eval_arm_DOF "left_arm" s' = Ret 1%nat s' /\
    eval_arm_DOF "right_arm" s' = Ret 1%nat s' /\
    deref 1%nat s' = [0; 0] ++ [py_max 0 (9 - 5)].
Proof.
  exact (@retraction_through_shared_list (world_of path_early) Stub.shared 1%nat 0 [0; 0] 9
           eq_refl eq_refl (or_intror eq_refl) eq_refl eq_refl).
Defined.

Lemma init_traj_plan_witness :
  init_traj "right_arm" [[9; 9; 9]] "RRTConnect" (start_of path_ok)
    = Ret path_ok (final (init_traj "right_arm" [[9; 9; 9]] "RRTConnect" (start_of path_ok))) /\
  exists arm dof goal planned,
    get_manip "right_arm" = Some arm /\
    right_arm_DOF (start_of path_ok) = Some dof /\
    head [[9; 9; 9]] = Some goal /\
    PlanPath (world_of path_ok) (String.append "OMPL_" "RRTConnect")
      (SetActiveManipulator (world_of path_ok) arm
         (SetActiveDOFValues (world_of path_ok) (deref dof (start_of path_ok))
            (SetActiveDOFs (world_of path_ok) (GetArmIndices (world_of path_ok) arm)
               (env (start_of path_ok))))) goal = Some planned.
Proof.
  assert (Hinit : init_traj "right_arm" [[9; 9; 9]] "RRTConnect" (start_of path_ok)
    = Ret path_ok (final (init_traj "right_arm" [[9; 9; 9]] "RRTConnect" (start_of path_ok))))
    by (vm_compute; reflexivity).
  split; [exact Hinit|].
  destruct (@init_traj_plan (world_of path_ok) "right_arm" [[9; 9; 9]] "RRTConnect"
              (start_of path_ok) path_ok _ Hinit)
    as (arm & dof & goal & planned & H1 & H2 & H3 & H4 & _).
  exists arm, dof, goal, planned. exact (conj H1 (conj H2 (conj H3 H4))).
Defined.

Lemma optimize_errors_witness :
  raised (optimize "left_arm" [[9; 9; 9]] "RRTConnect" Stub.only_right) = Some AttributeError /\
  AttributeError <> NameError /\
  (AttributeError = AttributeError ->
     get_manip "left_arm" = None \/ right_arm_DOF Stub.only_right = None \/
     stored_ref "left_arm" Stub.only_right = None).
Proof.
  assert (Hr : raised (optimize "left_arm" [[9; 9; 9]] "RRTConnect" Stub.only_right)
               = Some AttributeError) by (vm_compute; reflexivity).
  split; [exact Hr|].
  exact (@optimize_errors Stub.world_left "left_arm" [[9; 9; 9]] "RRTConnect"
           Stub.only_right AttributeError Hr).
Defined.

Lemma playback_after_optimize_witness :
  optimize "right_arm" [[9; 9; 9]] "RRTConnect" (start_of path_ok)
    = Ret tt (final (run_of path_ok)) /\
  plan_and_play "right_arm" [[9; 9; 9]] "RRTConnect" (start_of path_ok)
    = Ret tt (with_env (pose_after (GetArmIndices (world_of path_ok) "right_arm")
                          (traj (final (run_of path_ok))) (env (final (run_of path_ok))))
                (final (run_of path_ok))).
Proof.
  assert (Hrun : optimize "right_arm" [[9; 9; 9]] "RRTConnect" (start_of path_ok)
                 = Ret tt (final (run_of path_ok))) by (vm_compute; reflexivity).
  split; [exact Hrun|].
  exact (@playback_after_optimize (world_of path_ok) "right_arm" [[9; 9; 9]] "RRTConnect"
           (start_of path_ok) (final (run_of path_ok)) Hrun).
Defined.

(** A second call with an unknown arm, after a completed run: the old
    trajectory is still there. *)
Lemma optimize_without_plan_witness :
  raised (init_traj "third_arm" [[9; 9; 9]] "RRTConnect" (final (run_of path_ok)))
    = Some AttributeError /\
  traj (final (run_of path_ok)) = [[0; 0; 0]; [1; 0; 0]; [1; 0; 0]; [2; 0; 0]] /\
  raised (optimize "third_arm" [[9; 9; 9]] "RRTConnect" (final (run_of path_ok)))
    = Some AttributeError /\
  traj (final (optimize "third_arm" [[9; 9; 9]] "RRTConnect" (final (run_of path_ok))))
    = traj (final (run_of path_ok)).
Proof.
  assert (Hr : raised (init_traj "third_arm" [[9; 9; 9]] "RRTConnect" (final (run_of path_ok)))
               = Some AttributeError) by (vm_compute; reflexivity).
  split; [exact Hr|]. split; [vm_compute; reflexivity|].
  destruct (@optimize_without_plan (world_of path_ok) "third_arm" [[9; 9; 9]] "RRTConnect"
              (final (run_of path_ok)) AttributeError Hr) as (H1 & H2 & _).
  exact (conj H1 H2).
Defined.

Lemma optimize_short_path_witness :
  init_traj "right_arm" [[9; 9; 9]] "RRTConnect" (start_of Stub.path_single)
    = Ret Stub.path_single
        (final (init_traj "right_arm" [[9; 9; 9]] "RRTConnect" (start_of Stub.path_single))) /\
  (length Stub.path_single <= 1)%nat /\
  optimize "right_arm" [[9; 9; 9]] "RRTConnect" (start_of Stub.path_single)
    = Ret tt (with_traj []
                (final (init_traj "right_arm" [[9; 9; 9]] "RRTConnect"
                          (start_of Stub.path_single)))).
Proof.
  assert (Hinit : init_traj "right_arm" [[9; 9; 9]] "RRTConnect" (start_of Stub.path_single)
    = Ret Stub.path_single
        (final (init_traj "right_arm" [[9; 9; 9]] "RRTConnect" (start_of Stub.path_single))))
    by (vm_compute; reflexivity).
  assert (Hlen : (length Stub.path_single <= 1)%nat) by (simpl; lia).
  split; [exact Hinit|]. split; [exact Hlen|].
  exact (@optimize_short_path (world_of Stub.path_single) "right_arm" [[9; 9; 9]] "RRTConnect"
           (start_of Stub.path_single) Stub.path_single _ Hinit Hlen).
Defined.

Lemma optimize_call_count_witness :
  length (calls (final (run_of path_late))) = 4%nat /\
  (length (calls (final (run_of path_late))) <= 3 * (length path_late - 1))%nat.
Proof.
  assert (Hinit : init_traj "right_arm" [[9; 9; 9]] "RRTConnect" (start_of path_late)
    = Ret path_late (final (init_traj "right_arm" [[9; 9; 9]] "RRTConnect" (start_of path_late))))
    by (vm_compute; reflexivity).
  assert (Hcalls : calls (final (optimize "right_arm" [[9; 9; 9]] "RRTConnect" (start_of path_late)))
    = calls (start_of path_late) ++ calls (final (run_of path_late)))
    by (vm_compute; reflexivity).
  split; [vm_compute; reflexivity|].
  exact (proj1 (@optimize_call_count (world_of path_late) "right_arm" [[9; 9; 9]] "RRTConnect"
                  (start_of path_late) path_late _ (calls (final (run_of path_late)))
                  Hinit Hcalls)).
Defined.

Lemma no_safe_path_after_three_witness :
  optimize "right_arm" [[9; 9; 9]] "RRTConnect" (start_of path_late)
    = Raise NoSafePath (final (run_of path_late)) /\
  exists pre e0 e1 e2,
    calls (final (run_of path_late)) = pre ++ [e0; e1; e2] /\
    map ev_strategy [e0; e1; e2] = [0; 1; 2]%nat /\
    ev_segment e1 = ev_segment e0 /\ ev_segment e2 = ev_segment e0 /\
    map (judged_safe "right_arm") [e0; e1; e2] = [false; false; false].
Proof.
  assert (Hrun : optimize "right_arm" [[9; 9; 9]] "RRTConnect" (start_of path_late)
                 = Raise NoSafePath (final (run_of path_late))) by (vm_compute; reflexivity).
  assert (Hcalls : calls (final (run_of path_late))
                   = calls (start_of path_late) ++ calls (final (run_of path_late)))
    by (vm_compute; reflexivity).
  split; [exact Hrun|].
  exact (@no_safe_path_after_three (world_of path_late) "right_arm" [[9; 9; 9]] "RRTConnect"
           (start_of path_late) (final (run_of path_late)) (calls (final (run_of path_late)))
           Hrun Hcalls).
Defined.

Lemma optimize_first_strategy_suffices_witness :
  forallb (judged_safe "right_arm") (calls (final (run_of path_ok))) = true /\
  raised (optimize "right_arm" [[9; 9; 9]] "RRTConnect" (start_of path_ok)) = None /\
  length (calls (final (run_of path_ok))) = (length path_ok - 1)%nat /\
  Forall (fun ev => ev_strategy ev = 0%nat) (calls (final (run_of path_ok))).
Proof.
  assert (Hinit : init_traj "right_arm" [[9; 9; 9]] "RRTConnect" (start_of path_ok)
    = Ret path_ok (final (init_traj "right_arm" [[9; 9; 9]] "RRTConnect" (start_of path_ok))))
    by (vm_compute; reflexivity).
  assert (Hcalls : calls (final (optimize "right_arm" [[9; 9; 9]] "RRTConnect" (start_of path_ok)))
    = calls (start_of path_ok) ++ calls (final (run_of path_ok)))
    by (vm_compute; reflexivity).
  assert (Hall : forallb (judged_safe "right_arm") (calls (final (run_of path_ok))) = true)
    by (vm_compute; reflexivity).
  assert (Hsafe : forall ev : @event (world_of path_ok),
             ev ∈ calls (final (run_of path_ok)) -> ev_strategy ev = 0%nat ->
             judged_safe "right_arm" ev = true).
  { intros ev Hin _. apply list_elem_of_In in Hin.
    exact (proj1 (forallb_forall _ _) Hall ev Hin). }
  split; [exact Hall|].
  exact (@optimize_first_strategy_suffices (world_of path_ok) "right_arm" [[9; 9; 9]]
           "RRTConnect" (start_of path_ok) path_ok _ (calls (final (run_of path_ok)))
           Hinit Hcalls Hsafe).
Defined.

Lemma retraction_repeated_witness :
  exists x,
    deref 1%nat (Nat.iter 2 (fun s => final (choose_init_info 1 s)) (at_retraction [0; 0; 9]))
      = [0; 0] ++ [x] /\
    x == Qmax 0 (9 - 5 * inject_Z (Z.of_nat 2)).
Proof.
  exact (@retraction_repeated (world_of path_early) (at_retraction [0; 0; 9]) 0 1%nat [0; 0] 9
           1%nat eq_refl eq_refl eq_refl).
Defined.

Lemma retry_environment_witness :
  path_early !! 0%nat = Some [4; 0; 0] /\ path_early !! (0 + 1)%nat = Some [9; 9; 9] /\
  exists g,
    calls (final (refine_segment "right_arm" path_early 0 (start_of path_early)))
      = calls (start_of path_early) ++ g /\
    (forall ev, head g = Some ev ->
       ev_env ev = SetDOFValues (world_of path_early) [4; 0; 0]
                     (GetArmIndices (world_of path_early) "right_arm")
                     (env (start_of path_early))) /\
    (forall k ev ev', g !! k = Some ev -> g !! S k = Some ev' ->
       ev_env ev' = snd (check_safe_env (GetArmIndices (world_of path_early) "right_arm")
                           (candidate ev) (ev_env ev))).
Proof.
  exact (conj eq_refl (conj eq_refl
           (@retry_environment (world_of path_early) "right_arm" path_early 0%nat
              [4; 0; 0] [9; 9; 9] (start_of path_early) eq_refl eq_refl))).
Defined.

End MoreRuns.
Section PolicyRuns.

Import Sim.

Local Open Scope Q_scope.


End PolicyRuns.
